(** * Spatial noise filters: a shallow embedding and its properties

    The JavaScript classes [MeanFilter], [MedianFilter], [MinFilter],
    [MaxFilter], [MidpointFilter], [GeometricMeanFilter],
    [HarmonicMeanFilter], [ContraharmonicMeanFilter] and [GaussianFilter]
    are embedded as Rocq functions, one module per class, each function under
    the name of the method it embeds.

    Conventions of the embedding.
    - A [Uint8ClampedArray] is a [list Z]; reading outside the array gives
      [None] (JavaScript's [undefined]); a store outside the array is
      dropped; a stored value goes through [ToUint8Clamp].
    - A JavaScript number that stays an integer is a [Z]; a number that
      leaves the integers is a real number ([R]), so the rounding of double
      precision arithmetic is not part of the model.  [None] stands for
      [NaN] in both cases.
    - The kernel size is an integer ([Z]).
    - A [for] loop is [for_incl lo hi body], a left fold over the loop
      variable's values in order. *)

From Stdlib Require Import ZArith List Bool Lia Sorted.
From Stdlib Require Import QArith Qround Qreals.
From Stdlib Require Import Reals Lra Psatz.
Import ListNotations.

Open Scope Z_scope.

(** ** Errors, loops, colours *)

Inductive Error : Type :=
| ValidationError   (* new Error('Kernel size phải là số lẻ!') *)
| RangeError        (* new Float32Array(n) with n < 0 *)
| SecurityError.    (* getImageData on a tainted canvas *)

(** The values [lo, lo+1, ..., hi] of a loop variable. *)
Definition Zrange (lo hi : Z) : list Z :=
  map (fun k => lo + Z.of_nat k) (seq 0 (Z.to_nat (hi - lo + 1))).

(** [for (let i = lo; i <= hi; i++) s = body i s]. *)
Definition for_incl {S : Type} (lo hi : Z) (body : Z -> S -> S) (s : S) : S :=
  fold_left (fun acc i => body i acc) (Zrange lo hi) s.

(** [for (let i = 0; i < n; i++) s = body i s]. *)
Definition for_upto {S : Type} (n : Z) (body : Z -> S -> S) (s : S) : S :=
  for_incl 0 (n - 1) body s.

Record RGB (A : Type) : Type := mkRGB { r : A; g : A; b : A }.
Arguments mkRGB {A} _ _ _.
Arguments r {A} _.
Arguments g {A} _.
Arguments b {A} _.

Inductive Channel : Type := Red | Green | Blue.

Definition chan {A : Type} (c : Channel) (p : RGB A) : A :=
  match c with Red => r p | Green => g p | Blue => b p end.

(** Offset of a channel inside a pixel. *)
Definition offset (c : Channel) : Z :=
  match c with Red => 0 | Green => 1 | Blue => 2 end.

Definition rgb_map {A B : Type} (f : A -> B) (p : RGB A) : RGB B :=
  mkRGB (f (r p)) (f (g p)) (f (b p)).

Definition rgb_zip {A B C : Type} (f : A -> B -> C) (p : RGB A) (q : RGB B) : RGB C :=
  mkRGB (f (r p) (r q)) (f (g p) (g q)) (f (b p) (b q)).

(** ** Typed arrays *)

Module TypedArray.

Fixpoint update (n : nat) (v : Z) (a : list Z) : list Z :=
  match a, n with
  | [], _ => []
  | _ :: t, O => v :: t
  | h :: t, S n' => h :: update n' v t
  end.

(** [a[i]]: [None] is [undefined]. *)
Definition get (a : list Z) (i : Z) : option Z :=
  if i <? 0 then None else nth_error a (Z.to_nat i).

(** Conversion of a stored value in a [Uint8ClampedArray]; the stored
    values of this program are integers, [NaN] or [undefined]. *)
Definition ToUint8Clamp (v : option Z) : Z :=
  match v with
  | None => 0
  | Some z => Z.max 0 (Z.min 255 z)
  end.

(** [a[i] = v] on a [Uint8ClampedArray]. *)
Definition set (a : list Z) (i : Z) (v : option Z) : list Z :=
  if (0 <=? i) && (i <? Z.of_nat (length a))
  then update (Z.to_nat i) (ToUint8Clamp v) a
  else a.

(** [new Uint8ClampedArray(n)] and [new Uint16Array(n).fill(0)]. *)
Definition alloc (n : nat) : list Z := repeat 0 n.

(** [hist[v]++] on a [Uint16Array]: the counter wraps at 2^16; an index
    that is [undefined] or outside the array changes no element. *)
Definition incr16 (hist : list Z) (v : option Z) : list Z :=
  match v with
  | None => hist
  | Some i =>
      match get hist i with
      | None => hist
      | Some c => update (Z.to_nat i) ((c + 1) mod 65536) hist
      end
  end.

(** The three colour samples of the pixel stored at [pixelIndex]:
    [data[pixelIndex]], [data[pixelIndex + 1]], [data[pixelIndex + 2]]. *)
Definition pixelAt (data : list Z) (pixelIndex : Z) : RGB (option Z) :=
  mkRGB (get data pixelIndex) (get data (pixelIndex + 1)) (get data (pixelIndex + 2)).

End TypedArray.

(** ** Numbers *)

Module Num.

(** Integer-valued numbers, [None] for [NaN]. *)
Definition add (x y : option Z) : option Z :=
  match x, y with Some u, Some v => Some (u + v) | _, _ => None end.

(** [Math.min] and [Math.max]: [NaN] if an argument is. *)
Definition min (x y : option Z) : option Z :=
  match x, y with Some u, Some v => Some (Z.min u v) | _, _ => None end.

Definition max (x y : option Z) : option Z :=
  match x, y with Some u, Some v => Some (Z.max u v) | _, _ => None end.

(** [Math.round] on a rational: the nearest integer, halves upwards. *)
Definition roundQ (q : Q) : Z := Qfloor (q + (1 # 2)).

(** [Math.round(x / y)] for integer-valued [x] and [y >= 0].  A zero
    divisor is met in this program only as [0 / 0], which is [NaN]. *)
Definition round_div (x : option Z) (y : Z) : option Z :=
  match x with
  | None => None
  | Some u => if y =? 0 then None else Some (roundQ (inject_Z u / inject_Z y))
  end.

(** Real-valued numbers, [None] for [NaN]. *)
Definition radd (x y : option R) : option R :=
  match x, y with Some u, Some v => Some (u + v)%R | _, _ => None end.

Definition rmul (x y : option R) : option R :=
  match x, y with Some u, Some v => Some (u * v)%R | _, _ => None end.

(** [x / y]; the zero divisors of this program are of the form [0 / 0]. *)
Definition rdiv (x y : option R) : option R :=
  match x, y with
  | Some u, Some v => if Req_dec_T v 0 then None else Some (u / v)%R
  | _, _ => None
  end.

Definition ofZ (x : option Z) : option R :=
  match x with Some u => Some (IZR u) | None => None end.

(** [Math.log]: defined on the positive numbers, which is where the
    filters call it (a sample plus epsilon). *)
Definition log (x : option R) : option R :=
  match x with
  | Some u => if Rlt_dec 0 u then Some (ln u) else None
  | None => None
  end.

Definition exp (x : option R) : option R :=
  match x with Some u => Some (Rtrigo_def.exp u) | None => None end.

(** [Math.pow(x, y)] for a positive base, which is where the filters call
    it (a sample plus epsilon). *)
Definition pow (x : option R) (y : R) : option R :=
  match x with
  | Some u => if Rlt_dec 0 u then Some (Rpower u y) else None
  | None => None
  end.

(** [Math.round] on a real: the nearest integer, halves upwards. *)
Definition round (x : option R) : option Z :=
  match x with Some u => Some (Zfloor (u + / 2)) | None => None end.

(** [Math.max(0, Math.min(255, x))] on a real. *)
Definition clamp255 (x : option R) : option R :=
  match x with Some u => Some (Rmax 0 (Rmin 255 u)) | None => None end.

(** [Math.max(0, Math.min(255, n))] on an integer. *)
Definition clamp255Z (x : option Z) : option Z :=
  match x with Some u => Some (Z.max 0 (Z.min 255 u)) | None => None end.

(** The literal [1e-10]. *)
Definition epsilon : R := (/ 10000000000)%R.

End Num.

(** ** Canvas and image source *)

(** What a filter sees of the image element: its size, and the RGBA raster
    [getImageData] returns once the image is drawn, or [None] when the
    canvas is tainted and [getImageData] throws. *)
Record ImageElement : Type := {
  naturalWidth : Z;
  naturalHeight : Z;
  pixels : option (list Z)
}.

(** The canvas a filter resolves with: its size and either the raster put
    back with [putImageData], or the image redrawn through the CSS filter
    [blur(px)] by [applySimpleFilter]. *)
Inductive Content : Type :=
| Raster (data : list Z)
| CssBlur (px : R).

Record Canvas : Type := {
  width : Z;
  height : Z;
  content : Content
}.

Inductive Promise : Type :=
| Resolve (c : Canvas)
| Reject (e : Error).

(** [ctx.getImageData(0, 0, canvas.width, canvas.height)]. *)
Definition getImageData (img : ImageElement) : Error + list Z :=
  match pixels img with
  | Some d => inr d
  | None => inl SecurityError
  end.

(** The state every kernel filter keeps: [this.kernelSize], [this.radius]. *)
Record Kernel : Type := {
  kernelSize : Z;
  radius : Z
}.

(** The body shared by the [processImageData] methods of the eight
    neighbourhood filters: [calc] is the per-pixel method of the class. *)
Definition processImageDataWith
    (calc : list Z -> Z -> Z -> Z -> Z -> RGB (option Z))
    (data originalData : list Z) (width height : Z) : list Z :=
  let newData := TypedArray.alloc (length data) in
  let newData :=
    for_upto height (fun y =>
      for_upto width (fun x newData =>
        let pixelIndex := (y * width + x) * 4 in
        let colors := calc originalData x y width height in
        let newData := TypedArray.set newData pixelIndex (r colors) in
        let newData := TypedArray.set newData (pixelIndex + 1) (g colors) in
        let newData := TypedArray.set newData (pixelIndex + 2) (b colors) in
        TypedArray.set newData (pixelIndex + 3)
                       (TypedArray.get originalData (pixelIndex + 3))))
      newData in
  for_upto (Z.of_nat (length data))
           (fun i data => TypedArray.set data i (TypedArray.get newData i)) data.

(** ** MeanFilter (src/meanFilter.js) *)

Module MeanFilter.

Definition constructor (kernelSize : Z) : Error + Kernel :=
  if Z.rem kernelSize 2 =? 0 then inl ValidationError
  else inr {| kernelSize := kernelSize; radius := kernelSize / 2 |}.

Definition calculateMeanValues (this : Kernel) (data : list Z)
    (centerX centerY width height : Z) : RGB (option Z) :=
  let '(sum, count) :=
    for_incl (- radius this) (radius this) (fun dy =>
      for_incl (- radius this) (radius this) (fun dx '(sum, count) =>
        let newX := centerX + dx in
        let newY := centerY + dy in
        let validX := newX in
        let validY := newY in
        let validX := if validX <? 0 then Z.abs validX else validX in
        let validX := if validX >=? width then width - 1 - (validX - width + 1) else validX in
        let validY := if validY <? 0 then Z.abs validY else validY in
        let validY := if validY >=? height then height - 1 - (validY - height + 1) else validY in
        let validX := Z.max 0 (Z.min (width - 1) validX) in
        let validY := Z.max 0 (Z.min (height - 1) validY) in
        let pixelIndex := (validY * width + validX) * 4 in
        (rgb_zip Num.add sum (TypedArray.pixelAt data pixelIndex), count + 1)))
      (mkRGB (Some 0) (Some 0) (Some 0), 0) in
  rgb_map (fun s => Num.round_div s count) sum.

Definition processImageData (this : Kernel) :=
  processImageDataWith (calculateMeanValues this).

Definition applySimpleFilter (img : ImageElement) : Canvas :=
  {| width := naturalWidth img; height := naturalHeight img; content := CssBlur 1 |}.

Definition applyFilter (this : Kernel) (img : ImageElement) : Promise :=
  match getImageData img with
  | inl corsError => Resolve (applySimpleFilter img)
  | inr imageData =>
      let originalData := imageData in
      Resolve {| width := naturalWidth img; height := naturalHeight img;
                 content := Raster (processImageData this imageData originalData
                                      (naturalWidth img) (naturalHeight img)) |}
  end.

End MeanFilter.

(** ** MedianFilter (src/medianFilter.js) *)

Module MedianFilter.

Definition constructor (kernelSize : Z) : Error + Kernel :=
  if Z.rem kernelSize 2 =? 0 then inl ValidationError
  else inr {| kernelSize := kernelSize; radius := kernelSize / 2 |}.

(** The inner loop of [findMedian], from bin [i] on. *)
Fixpoint findMedianLoop (hist : list Z) (medianIndex : Z) (bins : list Z)
    (sum : option Z) : Z :=
  match bins with
  | [] => 255
  | i :: rest =>
      let sum := Num.add sum (TypedArray.get hist i) in
      match sum with
      | Some s => if s >=? medianIndex then i
                  else findMedianLoop hist medianIndex rest sum
      | None => findMedianLoop hist medianIndex rest sum
      end
  end.

Definition findMedian (medianIndex : Z) (hist : list Z) : Z :=
  findMedianLoop hist medianIndex (Zrange 0 255) (Some 0).

Definition createHistogram : list Z := TypedArray.alloc 256.

Definition calculateMedianValues (this : Kernel) (data : list Z)
    (centerX centerY width height : Z) : RGB (option Z) :=
  let hist := mkRGB createHistogram createHistogram createHistogram in
  let totalPixels := kernelSize this * kernelSize this in
  let medianIndex := totalPixels / 2 + 1 in
  let hist :=
    for_incl (- radius this) (radius this) (fun dy =>
      for_incl (- radius this) (radius this) (fun dx hist =>
        let newX := centerX + dx in
        let newY := centerY + dy in
        let newX := if newX <? 0 then - newX else newX in
        let newX := if newX >=? width then width - 1 - (newX - width + 1) else newX in
        let newY := if newY <? 0 then - newY else newY in
        let newY := if newY >=? height then height - 1 - (newY - height + 1) else newY in
        let newX := Z.max 0 (Z.min (width - 1) newX) in
        let newY := Z.max 0 (Z.min (height - 1) newY) in
        let index := (newY * width + newX) * 4 in
        rgb_zip TypedArray.incr16 hist (TypedArray.pixelAt data index)))
      hist in
  rgb_map (fun h => Some (findMedian medianIndex h)) hist.

Definition processImageData (this : Kernel) :=
  processImageDataWith (calculateMedianValues this).

Definition applySimpleFilter (img : ImageElement) : Canvas :=
  {| width := naturalWidth img; height := naturalHeight img; content := CssBlur 1 |}.

Definition applyFilter (this : Kernel) (img : ImageElement) : Promise :=
  match getImageData img with
  | inl corsError => Resolve (applySimpleFilter img)
  | inr imageData =>
      let originalData := imageData in
      Resolve {| width := naturalWidth img; height := naturalHeight img;
                 content := Raster (processImageData this imageData originalData
                                      (naturalWidth img) (naturalHeight img)) |}
  end.

End MedianFilter.

(** ** MaxFilter and MinFilter (src/maxFilter.js) *)

Module MaxFilter.

Definition constructor (kernelSize : Z) : Error + Kernel :=
  if Z.rem kernelSize 2 =? 0 then inl ValidationError
  else inr {| kernelSize := kernelSize; radius := kernelSize / 2 |}.

Definition calculateMaxValues (this : Kernel) (data : list Z)
    (centerX centerY width height : Z) : RGB (option Z) :=
  for_incl (- radius this) (radius this) (fun dy =>
    for_incl (- radius this) (radius this) (fun dx max =>
      let newX := centerX + dx in
      let newY := centerY + dy in
      let newX := if newX <? 0 then - newX else newX in
      let newX := if newX >=? width then width - 1 - (newX - width + 1) else newX in
      let newY := if newY <? 0 then - newY else newY in
      let newY := if newY >=? height then height - 1 - (newY - height + 1) else newY in
      let newX := Z.max 0 (Z.min (width - 1) newX) in
      let newY := Z.max 0 (Z.min (height - 1) newY) in
      let index := (newY * width + newX) * 4 in
      rgb_zip Num.max max (TypedArray.pixelAt data index)))
    (mkRGB (Some 0) (Some 0) (Some 0)).

Definition processImageData (this : Kernel) :=
  processImageDataWith (calculateMaxValues this).

Definition applyFilter (this : Kernel) (img : ImageElement) : Promise :=
  match getImageData img with
  | inl corsError => Reject corsError
  | inr imageData =>
      let originalData := imageData in
      Resolve {| width := naturalWidth img; height := naturalHeight img;
                 content := Raster (processImageData this imageData originalData
                                      (naturalWidth img) (naturalHeight img)) |}
  end.

End MaxFilter.

Module MinFilter.

Definition constructor (kernelSize : Z) : Error + Kernel :=
  if Z.rem kernelSize 2 =? 0 then inl ValidationError
  else inr {| kernelSize := kernelSize; radius := kernelSize / 2 |}.

Definition calculateMinValues (this : Kernel) (data : list Z)
    (centerX centerY width height : Z) : RGB (option Z) :=
  for_incl (- radius this) (radius this) (fun dy =>
    for_incl (- radius this) (radius this) (fun dx min =>
      let newX := centerX + dx in
      let newY := centerY + dy in
      let newX := if newX <? 0 then - newX else newX in
      let newX := if newX >=? width then width - 1 - (newX - width + 1) else newX in
      let newY := if newY <? 0 then - newY else newY in
      let newY := if newY >=? height then height - 1 - (newY - height + 1) else newY in
      let newX := Z.max 0 (Z.min (width - 1) newX) in
      let newY := Z.max 0 (Z.min (height - 1) newY) in
      let index := (newY * width + newX) * 4 in
      rgb_zip Num.min min (TypedArray.pixelAt data index)))
    (mkRGB (Some 255) (Some 255) (Some 255)).

Definition processImageData (this : Kernel) :=
  processImageDataWith (calculateMinValues this).

Definition applyFilter (this : Kernel) (img : ImageElement) : Promise :=
  match getImageData img with
  | inl corsError => Reject corsError
  | inr imageData =>
      let originalData := imageData in
      Resolve {| width := naturalWidth img; height := naturalHeight img;
                 content := Raster (processImageData this imageData originalData
                                      (naturalWidth img) (naturalHeight img)) |}
  end.

End MinFilter.

(** ** MidpointFilter (src/midPointFilter.js) *)

Module MidpointFilter.

Definition constructor (kernelSize : Z) : Error + Kernel :=
  if Z.rem kernelSize 2 =? 0 then inl ValidationError
  else inr {| kernelSize := kernelSize; radius := kernelSize / 2 |}.

Definition calculateMidpointValues (this : Kernel) (data : list Z)
    (centerX centerY width height : Z) : RGB (option Z) :=
  let '(min, max) :=
    for_incl (- radius this) (radius this) (fun dy =>
      for_incl (- radius this) (radius this) (fun dx '(min, max) =>
        let newX := centerX + dx in
        let newY := centerY + dy in
        let newX := if newX <? 0 then - newX else newX in
        let newX := if newX >=? width then width - 1 - (newX - width + 1) else newX in
        let newY := if newY <? 0 then - newY else newY in
        let newY := if newY >=? height then height - 1 - (newY - height + 1) else newY in
        let newX := Z.max 0 (Z.min (width - 1) newX) in
        let newY := Z.max 0 (Z.min (height - 1) newY) in
        let index := (newY * width + newX) * 4 in
        let px := TypedArray.pixelAt data index in
        (rgb_zip Num.min min px, rgb_zip Num.max max px)))
      (mkRGB (Some 255) (Some 255) (Some 255), mkRGB (Some 0) (Some 0) (Some 0)) in
  rgb_zip (fun lo hi => Num.round_div (Num.add lo hi) 2) min max.

Definition processImageData (this : Kernel) :=
  processImageDataWith (calculateMidpointValues this).

Definition applyFilter (this : Kernel) (img : ImageElement) : Promise :=
  match getImageData img with
  | inl corsError => Reject corsError
  | inr imageData =>
      let originalData := imageData in
      Resolve {| width := naturalWidth img; height := naturalHeight img;
                 content := Raster (processImageData this imageData originalData
                                      (naturalWidth img) (naturalHeight img)) |}
  end.

End MidpointFilter.

(** ** GeometricMeanFilter (src/geometricMeanFilter.js) *)

Module GeometricMeanFilter.

Definition constructor (kernelSize : Z) : Error + Kernel :=
  if Z.rem kernelSize 2 =? 0 then inl ValidationError
  else inr {| kernelSize := kernelSize; radius := kernelSize / 2 |}.

Definition calculateGeometricMean (this : Kernel) (data : list Z)
    (centerX centerY width height : Z) : RGB (option Z) :=
  let epsilon := Num.epsilon in
  let '(sumLog, count) :=
    for_incl (- radius this) (radius this) (fun dy =>
      for_incl (- radius this) (radius this) (fun dx '(sumLog, count) =>
        let newX := centerX + dx in
        let newY := centerY + dy in
        let validX := newX in
        let validY := newY in
        let validX := if validX <? 0 then Z.abs validX else validX in
        let validX := if validX >=? width then width - 1 - (validX - width + 1) else validX in
        let validY := if validY <? 0 then Z.abs validY else validY in
        let validY := if validY >=? height then height - 1 - (validY - height + 1) else validY in
        let validX := Z.max 0 (Z.min (width - 1) validX) in
        let validY := Z.max 0 (Z.min (height - 1) validY) in
        let pixelIndex := (validY * width + validX) * 4 in
        (rgb_zip (fun s d => Num.radd s (Num.log (Num.radd (Num.ofZ d) (Some epsilon))))
                 sumLog (TypedArray.pixelAt data pixelIndex),
         count + 1)))
      (mkRGB (Some 0%R) (Some 0%R) (Some 0%R), 0) in
  rgb_map (fun s => Num.round (Num.exp (Num.rdiv s (Some (IZR count))))) sumLog.

Definition processImageData (this : Kernel) :=
  processImageDataWith (calculateGeometricMean this).

Definition applySimpleFilter (img : ImageElement) : Canvas :=
  {| width := naturalWidth img; height := naturalHeight img; content := CssBlur 1 |}.

Definition applyFilter (this : Kernel) (img : ImageElement) : Promise :=
  match getImageData img with
  | inl corsError => Resolve (applySimpleFilter img)
  | inr imageData =>
      let originalData := imageData in
      Resolve {| width := naturalWidth img; height := naturalHeight img;
                 content := Raster (processImageData this imageData originalData
                                      (naturalWidth img) (naturalHeight img)) |}
  end.

End GeometricMeanFilter.

(** ** HarmonicMeanFilter *)

Module HarmonicMeanFilter.

Definition constructor (kernelSize : Z) : Error + Kernel :=
  if Z.rem kernelSize 2 =? 0 then inl ValidationError
  else inr {| kernelSize := kernelSize; radius := kernelSize / 2 |}.

Definition calculateHarmonicMean (this : Kernel) (data : list Z)
    (centerX centerY width height : Z) : RGB (option Z) :=
  let epsilon := Num.epsilon in
  let '(sumInv, count) :=
    for_incl (- radius this) (radius this) (fun dy =>
      for_incl (- radius this) (radius this) (fun dx '(sumInv, count) =>
        let newX := centerX + dx in
        let newY := centerY + dy in
        let validX := newX in
        let validY := newY in
        let validX := if validX <? 0 then Z.abs validX else validX in
        let validX := if validX >=? width then width - 1 - (validX - width + 1) else validX in
        let validY := if validY <? 0 then Z.abs validY else validY in
        let validY := if validY >=? height then height - 1 - (validY - height + 1) else validY in
        let validX := Z.max 0 (Z.min (width - 1) validX) in
        let validY := Z.max 0 (Z.min (height - 1) validY) in
        let pixelIndex := (validY * width + validX) * 4 in
        (rgb_zip (fun s d => Num.radd s (Num.rdiv (Some 1%R) (Num.radd (Num.ofZ d) (Some epsilon))))
                 sumInv (TypedArray.pixelAt data pixelIndex),
         count + 1)))
      (mkRGB (Some 0%R) (Some 0%R) (Some 0%R), 0) in
  rgb_map (fun s => Num.round (Num.rdiv (Some (IZR count)) s)) sumInv.

Definition processImageData (this : Kernel) :=
  processImageDataWith (calculateHarmonicMean this).

Definition applySimpleFilter (img : ImageElement) : Canvas :=
  {| width := naturalWidth img; height := naturalHeight img; content := CssBlur 1 |}.

Definition applyFilter (this : Kernel) (img : ImageElement) : Promise :=
  match getImageData img with
  | inl corsError => Resolve (applySimpleFilter img)
  | inr imageData =>
      let originalData := imageData in
      Resolve {| width := naturalWidth img; height := naturalHeight img;
                 content := Raster (processImageData this imageData originalData
                                      (naturalWidth img) (naturalHeight img)) |}
  end.

End HarmonicMeanFilter.

(** ** ContraharmonicMeanFilter (src/contraharmonicMeanFilter.js) *)

Module ContraharmonicMeanFilter.

Record t : Type := {
  kernel : Kernel;
  Q : R
}.

Definition constructor (kernelSize : Z) (Q : R) : Error + t :=
  if Z.rem kernelSize 2 =? 0 then inl ValidationError
  else inr {| kernel := {| kernelSize := kernelSize; radius := kernelSize / 2 |};
              Q := Q |}.

Definition calculateContraharmonicMean (this : t) (data : list Z)
    (centerX centerY width height : Z) : RGB (option Z) :=
  let radius := radius (kernel this) in
  let epsilon := Num.epsilon in
  let '(sumPowerQPlus1, sumPowerQ) :=
    for_incl (- radius) radius (fun dy =>
      for_incl (- radius) radius (fun dx '(sumPowerQPlus1, sumPowerQ) =>
        let newX := centerX + dx in
        let newY := centerY + dy in
        let validX := newX in
        let validY := newY in
        let validX := if validX <? 0 then Z.abs validX else validX in
        let validX := if validX >=? width then width - 1 - (validX - width + 1) else validX in
        let validY := if validY <? 0 then Z.abs validY else validY in
        let validY := if validY >=? height then height - 1 - (validY - height + 1) else validY in
        let validX := Z.max 0 (Z.min (width - 1) validX) in
        let validY := Z.max 0 (Z.min (height - 1) validY) in
        let pixelIndex := (validY * width + validX) * 4 in
        let rgb := rgb_map (fun d => Num.radd (Num.ofZ d) (Some epsilon))
                           (TypedArray.pixelAt data pixelIndex) in
        (rgb_zip (fun s v => Num.radd s (Num.pow v (Q this + 1))) sumPowerQPlus1 rgb,
         rgb_zip (fun s v => Num.radd s (Num.pow v (Q this))) sumPowerQ rgb)))
      (mkRGB (Some 0%R) (Some 0%R) (Some 0%R), mkRGB (Some 0%R) (Some 0%R) (Some 0%R)) in
  rgb_zip (fun p q => Num.clamp255Z (Num.round (Num.rdiv p (Num.radd q (Some epsilon)))))
          sumPowerQPlus1 sumPowerQ.

Definition processImageData (this : t) :=
  processImageDataWith (calculateContraharmonicMean this).

Definition applySimpleFilter (img : ImageElement) : Canvas :=
  {| width := naturalWidth img; height := naturalHeight img; content := CssBlur 1 |}.

Definition applyFilter (this : t) (img : ImageElement) : Promise :=
  match getImageData img with
  | inl corsError => Resolve (applySimpleFilter img)
  | inr imageData =>
      let originalData := imageData in
      Resolve {| width := naturalWidth img; height := naturalHeight img;
                 content := Raster (processImageData this imageData originalData
                                      (naturalWidth img) (naturalHeight img)) |}
  end.

End ContraharmonicMeanFilter.

(** ** GaussianFilter (src/gaussianFilter.js) *)

Module GaussianFilter.

Record t : Type := {
  sigma : R;
  kernelSize : Z;
  radius : Z;
  kernel : list (option R)
}.

(** The operand conversion of the bitwise operators. *)
Definition ToInt32 (z : Z) : Z := (z + 2 ^ 31) mod 2 ^ 32 - 2 ^ 31.

(** [Math.exp(-(x * x) / sigma2)], with [xx] for [x * x].  When [sigma2]
    is zero the quotient is [NaN] for [x = 0] and minus infinity
    otherwise, and the exponential of minus infinity is zero. *)
Definition gaussian (xx : Z) (sigma2 : R) : option R :=
  if Req_dec_T sigma2 0
  then (if xx =? 0 then None else Some 0%R)
  else Some (Rtrigo_def.exp (- IZR xx / sigma2)).

Definition createGaussianKernel (sigma : R) (kernelSize radius : Z)
    : Error + list (option R) :=
  if kernelSize <? 0 then inl RangeError
  else
    let sigma2 := (2 * sigma * sigma)%R in
    let values :=
      map (fun i => let x := i - radius in gaussian (x * x) sigma2)
          (Zrange 0 (kernelSize - 1)) in
    let sum := fold_left Num.radd values (Some 0%R) in
    inr (map (fun value => Num.rdiv value sum) values).

Definition constructor (sigma : R) (kernelSize : option Z) : Error + t :=
  let size :=
    match kernelSize with
    | None => inr (Z.lor (ToInt32 (Zceil (6 * sigma))) 1)
    | Some k => if Z.rem k 2 =? 0 then inl ValidationError else inr k
    end in
  match size with
  | inl e => inl e
  | inr kernelSize =>
      let radius := kernelSize / 2 in
      match createGaussianKernel sigma kernelSize radius with
      | inl e => inl e
      | inr kernel =>
          inr {| sigma := sigma; kernelSize := kernelSize;
                 radius := radius; kernel := kernel |}
      end
  end.

(** [this.kernel[i]]; [undefined] counts as [NaN] in the product. *)
Definition kernelAt (this : t) (i : Z) : option R :=
  if i <? 0 then None
  else match nth_error (kernel this) (Z.to_nat i) with
       | Some v => v
       | None => None
       end.

Definition convolveHorizontal (this : t) (data : list Z)
    (centerX centerY width height : Z) : RGB (option Z) :=
  let sum :=
    for_upto (kernelSize this) (fun i sum =>
      let dx := i - radius this in
      let newX := centerX + dx in
      let validX := Z.max 0 (Z.min (width - 1) newX) in
      let pixelIndex := (centerY * width + validX) * 4 in
      let kernelValue := kernelAt this i in
      rgb_zip (fun s d => Num.radd s (Num.rmul (Num.ofZ d) kernelValue))
              sum (TypedArray.pixelAt data pixelIndex))
      (mkRGB (Some 0%R) (Some 0%R) (Some 0%R)) in
  rgb_map (fun s => Num.round (Num.clamp255 s)) sum.

Definition convolveVertical (this : t) (data : list Z)
    (centerX centerY width height : Z) : RGB (option Z) :=
  let sum :=
    for_upto (kernelSize this) (fun i sum =>
      let dy := i - radius this in
      let newY := centerY + dy in
      let validY := Z.max 0 (Z.min (height - 1) newY) in
      let pixelIndex := (validY * width + centerX) * 4 in
      let kernelValue := kernelAt this i in
      rgb_zip (fun s d => Num.radd s (Num.rmul (Num.ofZ d) kernelValue))
              sum (TypedArray.pixelAt data pixelIndex))
      (mkRGB (Some 0%R) (Some 0%R) (Some 0%R)) in
  rgb_map (fun s => Num.round (Num.clamp255 s)) sum.

(** The body shared by [applyHorizontalConvolution] and
    [applyVerticalConvolution]: [conv] is the per-pixel method. *)
Definition convolutionPass
    (conv : list Z -> Z -> Z -> Z -> Z -> RGB (option Z))
    (data : list Z) (width height : Z) : list Z :=
  let newData := TypedArray.alloc (length data) in
  for_upto height (fun y =>
    for_upto width (fun x newData =>
      let pixelIndex := (y * width + x) * 4 in
      let convResult := conv data x y width height in
      let newData := TypedArray.set newData pixelIndex (r convResult) in
      let newData := TypedArray.set newData (pixelIndex + 1) (g convResult) in
      let newData := TypedArray.set newData (pixelIndex + 2) (b convResult) in
      TypedArray.set newData (pixelIndex + 3) (TypedArray.get data (pixelIndex + 3))))
    newData.

Definition applyHorizontalConvolution (this : t) :=
  convolutionPass (convolveHorizontal this).

Definition applyVerticalConvolution (this : t) :=
  convolutionPass (convolveVertical this).

Definition applySimpleFilter (this : t) (img : ImageElement) : Canvas :=
  {| width := naturalWidth img; height := naturalHeight img;
     content := CssBlur (sigma this) |}.

Definition applyFilter (this : t) (img : ImageElement) : Promise :=
  match getImageData img with
  | inl corsError => Resolve (applySimpleFilter this img)
  | inr imageData =>
      let horizontalData :=
        applyHorizontalConvolution this imageData (naturalWidth img) (naturalHeight img) in
      let finalData :=
        applyVerticalConvolution this horizontalData (naturalWidth img) (naturalHeight img) in
      let data :=
        for_upto (Z.of_nat (length imageData))
                 (fun i data => TypedArray.set data i (TypedArray.get finalData i))
                 imageData in
      Resolve {| width := naturalWidth img; height := naturalHeight img;
                 content := Raster data |}
  end.

End GaussianFilter.

(** ** The filter kinds together (script.js: one [apply...Filter] per kind,
       each [new F(...)] followed by [filter.applyFilter(imageElement)]) *)

Inductive FilterParams : Type :=
| Mean (kernelSize : Z)
| Median (kernelSize : Z)
| Min (kernelSize : Z)
| Max (kernelSize : Z)
| Midpoint (kernelSize : Z)
| GeometricMean (kernelSize : Z)
| HarmonicMean (kernelSize : Z)
| ContraharmonicMean (kernelSize : Z) (Q : R)
| Gaussian (sigma : R) (kernelSize : option Z).

Inductive Filter : Type :=
| MeanF (this : Kernel)
| MedianF (this : Kernel)
| MinF (this : Kernel)
| MaxF (this : Kernel)
| MidpointF (this : Kernel)
| GeometricMeanF (this : Kernel)
| HarmonicMeanF (this : Kernel)
| ContraharmonicMeanF (this : ContraharmonicMeanFilter.t)
| GaussianF (this : GaussianFilter.t).

Definition map_inr {E A B : Type} (f : A -> B) (x : E + A) : E + B :=
  match x with inl e => inl e | inr a => inr (f a) end.

(** [new F(...)]. *)
Definition construct (p : FilterParams) : Error + Filter :=
  match p with
  | Mean k => map_inr MeanF (MeanFilter.constructor k)
  | Median k => map_inr MedianF (MedianFilter.constructor k)
  | Min k => map_inr MinF (MinFilter.constructor k)
  | Max k => map_inr MaxF (MaxFilter.constructor k)
  | Midpoint k => map_inr MidpointF (MidpointFilter.constructor k)
  | GeometricMean k => map_inr GeometricMeanF (GeometricMeanFilter.constructor k)
  | HarmonicMean k => map_inr HarmonicMeanF (HarmonicMeanFilter.constructor k)
  | ContraharmonicMean k q =>
      map_inr ContraharmonicMeanF (ContraharmonicMeanFilter.constructor k q)
  | Gaussian s k => map_inr GaussianF (GaussianFilter.constructor s k)
  end.

(** [filter.applyFilter(imageElement)]. *)
Definition applyFilter (f : Filter) (img : ImageElement) : Promise :=
  match f with
  | MeanF this => MeanFilter.applyFilter this img
  | MedianF this => MedianFilter.applyFilter this img
  | MinF this => MinFilter.applyFilter this img
  | MaxF this => MaxFilter.applyFilter this img
  | MidpointF this => MidpointFilter.applyFilter this img
  | GeometricMeanF this => GeometricMeanFilter.applyFilter this img
  | HarmonicMeanF this => HarmonicMeanFilter.applyFilter this img
  | ContraharmonicMeanF this => ContraharmonicMeanFilter.applyFilter this img
  | GaussianF this => GaussianFilter.applyFilter this img
  end.

(** [new F(...).applyFilter(imageElement)]: an exception of the constructor
    leaves no filter to apply. *)
Definition run (p : FilterParams) (img : ImageElement) : Error + Promise :=
  match construct p with
  | inl e => inl e
  | inr f => inr (applyFilter f img)
  end.

(** ** The specification's components

    Section 2 of the specification splits a neighbourhood filter into a
    boundary policy, a neighbourhood sampler and an aggregator.  The
    definitions below follow the specification's words; the theorems relate
    them to the methods above. *)

(** Boundary policy (section 4.1): "if c < 0, reflect to |c|; if c >= n,
    reflect to n - 1 - (c - n + 1); finally clamp the result into
    [0, n-1]". *)
Definition reflect (c n : Z) : Z :=
  let c := if c <? 0 then Z.abs c else c in
  let c := if c >=? n then n - 1 - (c - n + 1) else c in
  Z.max 0 (Z.min (n - 1) c).

(** Edge replication, the policy of the Gaussian passes. *)
Definition clampCoord (c n : Z) : Z := Z.max 0 (Z.min (n - 1) c).

(** Neighbourhood sampler: the offsets in [data] of the pixels covered by
    the kernel centred on [(centerX, centerY)], row by row. *)
Definition neighborhood (radius centerX centerY width height : Z) : list Z :=
  flat_map (fun dy =>
    map (fun dx => (reflect (centerY + dy) height * width
                    + reflect (centerX + dx) width) * 4)
        (Zrange (- radius) radius))
    (Zrange (- radius) radius).

(** The samples of one channel at the given pixel offsets. *)
Definition samples (data : list Z) (c : Channel) (pixels : list Z) : list (option Z) :=
  map (fun i => TypedArray.get data (i + offset c)) pixels.

(** Aggregators (section 4.2), per channel, over a list of samples. *)
Definition meanOf (l : list (option Z)) : option Z :=
  Num.round_div (fold_left Num.add l (Some 0)) (Z.of_nat (length l)).

Definition maxOf (l : list (option Z)) : option Z := fold_left Num.max l (Some 0).

Definition minOf (l : list (option Z)) : option Z := fold_left Num.min l (Some 255).

Definition midpointOf (l : list (option Z)) : option Z :=
  Num.round_div (Num.add (minOf l) (maxOf l)) 2.

Definition histogramOf (l : list (option Z)) : list Z :=
  fold_left TypedArray.incr16 l MedianFilter.createHistogram.

Definition medianOf (kernelSize : Z) (l : list (option Z)) : option Z :=
  Some (MedianFilter.findMedian (kernelSize * kernelSize / 2 + 1) (histogramOf l)).

Definition shifted (d : option Z) : option R :=
  Num.radd (Num.ofZ d) (Some Num.epsilon).

Definition geometricOf (l : list (option Z)) : option Z :=
  Num.round (Num.exp (Num.rdiv
    (fold_left (fun s d => Num.radd s (Num.log (shifted d))) l (Some 0%R))
    (Some (IZR (Z.of_nat (length l)))))).

Definition harmonicOf (l : list (option Z)) : option Z :=
  Num.round (Num.rdiv (Some (IZR (Z.of_nat (length l))))
    (fold_left (fun s d => Num.radd s (Num.rdiv (Some 1%R) (shifted d))) l (Some 0%R))).

Definition contraharmonicOf (Q : R) (l : list (option Z)) : option Z :=
  Num.clamp255Z (Num.round (Num.rdiv
    (fold_left (fun s d => Num.radd s (Num.pow (shifted d) (Q + 1))) l (Some 0%R))
    (Num.radd (fold_left (fun s d => Num.radd s (Num.pow (shifted d) Q)) l (Some 0%R))
              (Some Num.epsilon)))).

(** An RGBA raster of the given size: four channels per pixel, each
    channel a value in [0, 255]. *)
Definition is_byte (v : Z) : bool := (0 <=? v) && (v <=? 255).

Definition is_raster (data : list Z) (width height : Z) : bool :=
  (Z.of_nat (length data) =? width * height * 4) && forallb is_byte data.

(** A position inside the raster. *)
Definition in_image (x y width height : Z) : bool :=
  (0 <=? x) && (x <? width) && (0 <=? y) && (y <? height).

(** Order statistics: the [k]-th smallest element of a list, [k] from 1. *)
Fixpoint insert (x : Z) (l : list Z) : list Z :=
  match l with
  | [] => [x]
  | y :: t => if x <=? y then x :: l else y :: insert x t
  end.

Fixpoint sort (l : list Z) : list Z :=
  match l with
  | [] => []
  | x :: t => insert x (sort t)
  end.

Definition kth_smallest (k : Z) (l : list Z) : option Z :=
  if k <=? 0 then None else nth_error (sort l) (Z.to_nat (k - 1)).

(** The sample values that are defined. *)
Definition defined (l : list (option Z)) : list Z :=
  flat_map (fun o => match o with Some v => [v] | None => [] end) l.


(** What [processImageData] leaves at each offset of the raster. *)
Definition pixelValue (calc : list Z -> Z -> Z -> Z -> Z -> RGB (option Z))
    (src : list Z) (w h x y k : Z) : option Z :=
  match k with
  | 0 => r (calc src x y w h)
  | 1 => g (calc src x y w h)
  | 2 => b (calc src x y w h)
  | _ => TypedArray.get src ((y * w + x) * 4 + 3)
  end.

(** The kernel size handed to the constructor, when one is. *)
Definition explicitSize (p : FilterParams) : option Z :=
  match p with
  | Mean k | Median k | Min k | Max k | Midpoint k
  | GeometricMean k | HarmonicMean k | ContraharmonicMean k _ => Some k
  | Gaussian _ k => k
  end.

(** The 3x3 test image of section 8: every pixel (200, 200, 200, 255)
    except the pixel at [(cx, cy)], which is (0, 0, 0, 255). *)
Definition cornerImage (cx cy : Z) : list Z :=
  flat_map (fun y =>
    flat_map (fun x =>
      if (x =? cx) && (y =? cy) then [0; 0; 0; 255] else [200; 200; 200; 255])
      (Zrange 0 2))
    (Zrange 0 2).

Definition corners : list (Z * Z) := [(0, 0); (2, 0); (0, 2); (2, 2)].

(** A colour value the raster can hold. *)
Definition is_color (o : option Z) : Prop :=
  exists v : Z, o = Some v /\ 0 <= v <= 255.

(** The kernel a constructor builds from an odd size. *)
Definition kernelOf (size : Z) : Kernel :=
  {| kernelSize := size; radius := size / 2 |}.

Definition Rsum (l : list R) : R := fold_right Rplus 0%R l.

Definition Zsum (l : list Z) : Z := fold_right Z.add 0 l.

(** How many elements of a list equal [t], and how many are at most [t]. *)
Definition countEq (t : Z) (l : list Z) : Z :=
  Z.of_nat (length (filter (fun v => v =? t) l)).

Definition countLe (t : Z) (l : list Z) : Z :=
  Z.of_nat (length (filter (fun v => v <=? t) l)).

(** A raster of one black, opaque pixel. *)
Definition blackPixel : list Z := [0; 0; 0; 255].

(** The image element that holds the test image with the dark pixel at
    the top left corner, and the same element with unreadable pixels. *)
Definition cornerElement : ImageElement :=
  {| naturalWidth := 3; naturalHeight := 3; pixels := Some (cornerImage 0 0) |}.

Definition taintedElement : ImageElement :=
  {| naturalWidth := 3; naturalHeight := 3; pixels := None |}.

(** The raster a canvas holds, when it holds one. *)
Definition rasterOf (p : Promise) : option (list Z) :=
  match p with
  | Resolve c => match content c with Raster d => Some d | CssBlur _ => None end
  | Reject _ => None
  end.

(** ** Vocabulary of the further properties *)

(** A defined value within [lo, hi]. *)
Definition inRange (lo hi : Z) (o : option Z) : Prop :=
  exists v : Z, o = Some v /\ lo <= v <= hi.

(** Every sample of a list is a defined value within [lo, hi]. *)
Definition samples_within (lo hi : Z) (l : list (option Z)) : Prop :=
  forall o, In o l -> inRange lo hi o.

(** Channel [c] of every pixel of a [w] x [h] raster has the value [v]. *)
Definition uniform_channel (data : list Z) (w h : Z) (c : Channel) (v : Z) : Prop :=
  forall x y : Z,
    in_image x y w h = true ->
    TypedArray.get data ((y * w + x) * 4 + offset c) = Some v.

(** The per-pixel method of a neighbourhood filter. *)
Definition calcOf (f : Filter)
    : option (list Z -> Z -> Z -> Z -> Z -> RGB (option Z)) :=
  match f with
  | MeanF this => Some (MeanFilter.calculateMeanValues this)
  | MedianF this => Some (MedianFilter.calculateMedianValues this)
  | MinF this => Some (MinFilter.calculateMinValues this)
  | MaxF this => Some (MaxFilter.calculateMaxValues this)
  | MidpointF this => Some (MidpointFilter.calculateMidpointValues this)
  | GeometricMeanF this => Some (GeometricMeanFilter.calculateGeometricMean this)
  | HarmonicMeanF this => Some (HarmonicMeanFilter.calculateHarmonicMean this)
  | ContraharmonicMeanF this =>
      Some (ContraharmonicMeanFilter.calculateContraharmonicMean this)
  | GaussianF _ => None
  end.

(** The filters of one kernel that average or select without a parameter. *)
Definition plainAggregators (this : Kernel) : list Filter :=
  [MeanF this; MinF this; MaxF this; MidpointF this; MedianF this;
   GeometricMeanF this; HarmonicMeanF this].

(** The sum a convolution accumulates for one channel: sample [g i] times
    kernel entry [K i], over the kernel positions [l]. *)
Definition weightedSum (K : Z -> option R) (g : Z -> option Z) (l : list Z) : option R :=
  fold_left (fun s i => Num.radd s (Num.rmul (Num.ofZ (g i)) (K i))) l (Some 0%R).

(** Channel [c] of every pixel of a [w] x [h] raster is defined and within
    [lo, hi]. *)
Definition channel_within (data : list Z) (w h : Z) (c : Channel) (lo hi : Z) : Prop :=
  forall x y : Z,
    in_image x y w h = true ->
    inRange lo hi (TypedArray.get data ((y * w + x) * 4 + offset c)).

(** The two predicates above as checks, for concrete rasters. *)
Definition inRangeb (lo hi : Z) (o : option Z) : bool :=
  match o with
  | Some v => (lo <=? v) && (v <=? hi)
  | None => false
  end.

Definition channel_withinb (data : list Z) (w h : Z) (c : Channel) (lo hi : Z) : bool :=
  forallb (fun y =>
    forallb (fun x => inRangeb lo hi (TypedArray.get data ((y * w + x) * 4 + offset c)))
            (Zrange 0 (w - 1)))
    (Zrange 0 (h - 1)).

(** A 3 x 3 test image whose red channel is 200 everywhere, while the green
    channel rises from 0 to 80 along the raster. *)
Definition tintedImage : list Z :=
  flat_map (fun i => [200; 10 * i; 0; 255]) (Zrange 0 8).

Definition tintedElement : ImageElement :=
  {| naturalWidth := 3; naturalHeight := 3; pixels := Some tintedImage |}.

(** * Properties *)

(** ** Loops *)

Lemma Zrange_In (lo hi i : Z) : In i (Zrange lo hi) <-> lo <= i <= hi.
Proof.
  unfold Zrange. rewrite in_map_iff. split.
  - intros [k [<- Hk]]. apply in_seq in Hk. lia.
  - intros Hi. exists (Z.to_nat (i - lo)). split; [lia|].
    apply in_seq. lia.
Qed.

Lemma Zrange_length (lo hi : Z) : length (Zrange lo hi) = Z.to_nat (hi - lo + 1).
Proof. unfold Zrange. now rewrite length_map, length_seq. Qed.

Lemma Zrange_single (i : Z) : Zrange i i = [i].
Proof.
  unfold Zrange. replace (i - i + 1) with 1 by lia. simpl. f_equal. lia.
Qed.

Section FoldInvariants.

Context {S A : Type} (f : S -> A -> S) (P : S -> Prop).

Lemma fold_left_preserve (l : list A) (s : S) :
  (forall a s', In a l -> P s' -> P (f s' a)) -> P s -> P (fold_left f l s).
Proof.
  revert s. induction l as [|a l IH]; intros s Hstep Hs; simpl; auto.
  apply IH.
  - intros a' s' Hin. apply Hstep. now right.
  - apply Hstep; auto. now left.
Qed.

(** A property one step brings about whatever the state, and that every
    step keeps, holds at the end. *)
Lemma fold_left_establish (Q : S -> Prop) (l : list A) (s : S) (a0 : A) :
  In a0 l ->
  (forall s', Q s' -> P (f s' a0)) ->
  (forall a s', In a l -> P s' -> P (f s' a)) ->
  (forall a s', In a l -> Q s' -> Q (f s' a)) ->
  Q s -> P (fold_left f l s).
Proof.
  revert s. induction l as [|a l IH]; intros s Hin Hest Hkeep HQ Hs; simpl.
  - destruct Hin.
  - destruct Hin as [-> | Hin].
    + apply fold_left_preserve.
      * intros a' s' Hin'. apply Hkeep. now right.
      * apply Hest, Hs.
    + apply IH; auto.
      * intros a' s' Hin'. apply Hkeep. now right.
      * intros a' s' Hin'. apply HQ. now right.
      * apply HQ; auto. now left.
Qed.

End FoldInvariants.

Lemma for_incl_preserve {S : Type} (P : S -> Prop) (lo hi : Z) (body : Z -> S -> S) (s : S) :
  (forall i s', lo <= i <= hi -> P s' -> P (body i s')) ->
  P s -> P (for_incl lo hi body s).
Proof.
  intros Hstep Hs. unfold for_incl. apply fold_left_preserve; auto.
  intros i s' Hin. apply Hstep. now apply Zrange_In.
Qed.

Lemma for_incl_establish {S : Type} (P Q : S -> Prop) (lo hi i0 : Z)
    (body : Z -> S -> S) (s : S) :
  lo <= i0 <= hi ->
  (forall s', Q s' -> P (body i0 s')) ->
  (forall i s', lo <= i <= hi -> P s' -> P (body i s')) ->
  (forall i s', lo <= i <= hi -> Q s' -> Q (body i s')) ->
  Q s -> P (for_incl lo hi body s).
Proof.
  intros Hi Hest Hkeep HQ Hs. unfold for_incl.
  apply fold_left_establish with (Q := Q) (a0 := i0); auto.
  - now apply Zrange_In.
  - intros i s' Hin. apply Hkeep. now apply Zrange_In.
  - intros i s' Hin. apply HQ. now apply Zrange_In.
Qed.

(** ** Typed arrays *)

Lemma update_length (n : nat) (v : Z) (a : list Z) :
  length (TypedArray.update n v a) = length a.
Proof.
  revert n. induction a as [|h t IH]; intros [|n]; simpl; auto.
Qed.

Lemma nth_error_update_same (n : nat) (v : Z) (a : list Z) :
  (n < length a)%nat -> nth_error (TypedArray.update n v a) n = Some v.
Proof.
  revert n. induction a as [|h t IH]; intros [|n] H; simpl in *; try lia; auto.
  apply IH. lia.
Qed.

Lemma nth_error_update_other (n m : nat) (v : Z) (a : list Z) :
  n <> m -> nth_error (TypedArray.update n v a) m = nth_error a m.
Proof.
  revert n m. induction a as [|h t IH]; intros [|n] [|m] H; simpl; auto;
    try congruence.
Qed.

Lemma set_length (a : list Z) (i : Z) (v : option Z) :
  length (TypedArray.set a i v) = length a.
Proof.
  unfold TypedArray.set. destruct (_ && _); auto using update_length.
Qed.

Lemma get_set_same (a : list Z) (i : Z) (v : option Z) :
  0 <= i < Z.of_nat (length a) ->
  TypedArray.get (TypedArray.set a i v) i = Some (TypedArray.ToUint8Clamp v).
Proof.
  intros H. unfold TypedArray.get, TypedArray.set.
  replace (i <? 0) with false by lia.
  replace ((0 <=? i) && (i <? Z.of_nat (length a))) with true by lia.
  apply nth_error_update_same. lia.
Qed.

Lemma get_set_other (a : list Z) (i j : Z) (v : option Z) :
  i <> j -> TypedArray.get (TypedArray.set a i v) j = TypedArray.get a j.
Proof.
  intros H. unfold TypedArray.get, TypedArray.set.
  destruct (j <? 0) eqn:Hj; auto.
  destruct (_ && _) eqn:Hi; auto.
  apply nth_error_update_other. lia.
Qed.

Lemma get_Some_range (a : list Z) (i v : Z) :
  TypedArray.get a i = Some v -> 0 <= i < Z.of_nat (length a).
Proof.
  unfold TypedArray.get. destruct (i <? 0) eqn:Hi; [discriminate|].
  intros H. assert (Hn : nth_error a (Z.to_nat i) <> None) by congruence.
  apply nth_error_Some in Hn. lia.
Qed.

Lemma get_in_range (a : list Z) (i : Z) :
  0 <= i < Z.of_nat (length a) -> exists v, TypedArray.get a i = Some v /\ In v a.
Proof.
  intros H. unfold TypedArray.get. replace (i <? 0) with false by lia.
  destruct (nth_error a (Z.to_nat i)) as [v|] eqn:E.
  - exists v. split; auto. eapply nth_error_In; eauto.
  - apply nth_error_None in E. lia.
Qed.

Lemma ToUint8Clamp_byte (v : Z) :
  0 <= v <= 255 -> TypedArray.ToUint8Clamp (Some v) = v.
Proof. intros H. unfold TypedArray.ToUint8Clamp. lia. Qed.

Lemma ToUint8Clamp_range (v : option Z) : 0 <= TypedArray.ToUint8Clamp v <= 255.
Proof. destruct v; simpl; lia. Qed.

Lemma is_raster_spec (data : list Z) (w h : Z) :
  is_raster data w h = true ->
  Z.of_nat (length data) = w * h * 4 /\ forall v, In v data -> 0 <= v <= 255.
Proof.
  unfold is_raster. rewrite andb_true_iff, forallb_forall. intros [Hl Hb].
  split; [lia|]. intros v Hv. apply Hb in Hv. unfold is_byte in Hv. lia.
Qed.

(** Decide the integer comparisons of the goal that the context settles. *)
Ltac simp_cmp :=
  repeat match goal with
         | |- context [?a =? ?b] =>
             first [replace (a =? b) with true by lia
                   |replace (a =? b) with false by lia]
         | |- context [?a <=? ?b] =>
             first [replace (a <=? b) with true by lia
                   |replace (a <=? b) with false by lia]
         | |- context [?a <? ?b] =>
             first [replace (a <? b) with true by lia
                   |replace (a <? b) with false by lia]
         | |- context [?a >=? ?b] =>
             first [replace (a >=? b) with true by lia
                   |replace (a >=? b) with false by lia]
         end;
  simpl.

Lemma get_set (a : list Z) (i j : Z) (v : option Z) :
  TypedArray.get (TypedArray.set a i v) j =
  if (i =? j) && (0 <=? i) && (i <? Z.of_nat (length a))
  then Some (TypedArray.ToUint8Clamp v)
  else TypedArray.get a j.
Proof.
  destruct (Z.eqb_spec i j) as [<- | Hne]; simpl.
  - destruct ((0 <=? i) && (i <? Z.of_nat (length a))) eqn:Hr.
    + apply get_set_same. lia.
    + unfold TypedArray.set. now rewrite Hr.
  - now apply get_set_other.
Qed.

Lemma pixel_offset_inj (w x y k x0 y0 k0 : Z) :
  0 <= x < w -> 0 <= x0 < w -> 0 <= k <= 3 -> 0 <= k0 <= 3 ->
  (y * w + x) * 4 + k = (y0 * w + x0) * 4 + k0 ->
  x = x0 /\ y = y0 /\ k = k0.
Proof.
  intros Hx Hx0 Hk Hk0 E.
  assert (Hk' : k = k0) by lia.
  assert (Hp : y * w + x = y0 * w + x0) by lia.
  assert (Hy : y = y0) by nia.
  subst. lia.
Qed.

(** ** The raster sweep

    One sweep writes, for every pixel in row-major order, the four values
    [value x y 0 .. value x y 3] at the pixel's offsets.  Afterwards each
    offset of the raster holds the value computed for its own pixel. *)

Section Sweep.

Variable value : Z -> Z -> Z -> option Z.
Variables w h : Z.

Let step (y x : Z) (newData : list Z) : list Z :=
  let pixelIndex := (y * w + x) * 4 in
  let newData := TypedArray.set newData pixelIndex (value x y 0) in
  let newData := TypedArray.set newData (pixelIndex + 1) (value x y 1) in
  let newData := TypedArray.set newData (pixelIndex + 2) (value x y 2) in
  TypedArray.set newData (pixelIndex + 3) (value x y 3).

Lemma step_length (y x : Z) (a : list Z) : length (step y x a) = length a.
Proof. unfold step. cbv zeta. now rewrite !set_length. Qed.

Lemma step_get (y x : Z) (a : list Z) (j : Z) :
  TypedArray.get (step y x a) j =
  let p := (y * w + x) * 4 in
  if (p <=? j) && (j <=? p + 3) && (0 <=? j) && (j <? Z.of_nat (length a))
  then Some (TypedArray.ToUint8Clamp (value x y (j - p)))
  else TypedArray.get a j.
Proof.
  unfold step. cbv zeta. rewrite !get_set, !set_length.
  set (p := (y * w + x) * 4).
  assert (C : j < p \/ j = p \/ j = p + 1 \/ j = p + 2 \/ j = p + 3 \/ p + 3 < j)
    by lia.
  assert (D : j < 0 \/ 0 <= j < Z.of_nat (length a) \/ Z.of_nat (length a) <= j)
    by lia.
  destruct C as [C|[C|[C|[C|[C|C]]]]], D as [D|[D|D]];
    simp_cmp; try reflexivity; repeat f_equal; lia.
Qed.

Lemma sweep_length (a : list Z) :
  length (for_upto h (fun y => for_upto w (step y)) a) = length a.
Proof.
  unfold for_upto.
  apply (for_incl_preserve (fun s => length s = length a)); auto.
  intros y s _ Hs.
  apply (for_incl_preserve (fun s => length s = length a)); auto.
  intros x s' _ Hs'. now rewrite step_length.
Qed.

Lemma sweep_get (a : list Z) (x0 y0 k0 : Z) :
  0 <= x0 < w -> 0 <= y0 < h -> 0 <= k0 <= 3 ->
  (y0 * w + x0) * 4 + k0 < Z.of_nat (length a) ->
  TypedArray.get (for_upto h (fun y => for_upto w (step y)) a)
                 ((y0 * w + x0) * 4 + k0)
  = Some (TypedArray.ToUint8Clamp (value x0 y0 k0)).
Proof.
  intros Hx0 Hy0 Hk0 Hj.
  set (j := (y0 * w + x0) * 4 + k0) in *.
  set (Q := fun s : list Z => length s = length a).
  set (P := fun s : list Z =>
              length s = length a /\
              TypedArray.get s j = Some (TypedArray.ToUint8Clamp (value x0 y0 k0))).
  assert (Hest : forall s, Q s -> P (step y0 x0 s)).
  { intros s Hs. split; [now rewrite step_length|].
    rewrite step_get. cbv zeta. unfold Q in Hs. rewrite Hs.
    replace (_ && _) with true by (unfold j; nia).
    do 2 f_equal. f_equal. unfold j. lia. }
  assert (Hkeep : forall y x s, 0 <= x <= w - 1 -> P s -> P (step y x s)).
  { intros y x s Hx [Hl Hg].
    destruct (Z.eq_dec x x0) as [-> | Hxne];
      [destruct (Z.eq_dec y y0) as [-> | Hyne]|].
    - apply Hest, Hl.
    - split; [now rewrite step_length|].
      rewrite step_get. cbv zeta.
      destruct (_ && _) eqn:Hin; auto.
      exfalso.
      destruct (pixel_offset_inj w x0 y (j - (y * w + x0) * 4) x0 y0 k0)
        as [_ [Hy' _]]; unfold j in *; lia.
    - split; [now rewrite step_length|].
      rewrite step_get. cbv zeta.
      destruct (_ && _) eqn:Hin; auto.
      exfalso.
      destruct (pixel_offset_inj w x y (j - (y * w + x) * 4) x0 y0 k0)
        as [Hx' _]; unfold j in *; lia. }
  assert (HQ : forall y x s, Q s -> Q (step y x s)).
  { intros y x s Hs. unfold Q. now rewrite step_length. }
  unfold for_upto.
  apply (for_incl_establish P Q 0 (h - 1) y0); try lia.
  - intros s Hs.
    apply (for_incl_establish P Q 0 (w - 1) x0); try lia; auto.
  - intros y s _ Hs. apply (for_incl_preserve P); auto.
  - intros y s _ Hs. apply (for_incl_preserve Q); auto.
  - reflexivity.
Qed.

End Sweep.

(** The copy loop that ends [processImageData] and [GaussianFilter.applyFilter]. *)
Lemma copy_length (src dst : list Z) :
  length (for_upto (Z.of_nat (length dst))
            (fun i data => TypedArray.set data i (TypedArray.get src i)) dst)
  = length dst.
Proof.
  unfold for_upto.
  apply (for_incl_preserve (fun s => length s = length dst)); auto.
  intros i s _ Hs. now rewrite set_length.
Qed.

Lemma copy_get (src dst : list Z) (j : Z) :
  0 <= j < Z.of_nat (length dst) ->
  TypedArray.get (for_upto (Z.of_nat (length dst))
                    (fun i data => TypedArray.set data i (TypedArray.get src i)) dst) j
  = Some (TypedArray.ToUint8Clamp (TypedArray.get src j)).
Proof.
  intros Hj. unfold for_upto.
  set (P := fun s : list Z =>
              length s = length dst /\
              TypedArray.get s j = Some (TypedArray.ToUint8Clamp (TypedArray.get src j))).
  set (Q := fun s : list Z => length s = length dst).
  apply (for_incl_establish P Q 0 (Z.of_nat (length dst) - 1) j); try lia.
  - intros s Hs. split; [now rewrite set_length|].
    rewrite get_set_same; auto. unfold Q in Hs. lia.
  - intros i s _ [Hl Hg]. split; [now rewrite set_length|].
    rewrite get_set. destruct (Z.eqb_spec i j) as [->|]; simpl; auto.
    rewrite Hl. now replace ((0 <=? j) && (j <? Z.of_nat (length dst))) with true by lia.
  - intros i s _ Hs. unfold Q. now rewrite set_length.
  - reflexivity.
Qed.

Lemma alloc_length (n : nat) : length (TypedArray.alloc n) = n.
Proof. apply repeat_length. Qed.

Lemma processImageDataWith_length calc data originalData w h :
  length (processImageDataWith calc data originalData w h) = length data.
Proof. unfold processImageDataWith. cbv zeta. apply copy_length. Qed.

Lemma processImageDataWith_get calc data originalData w h x0 y0 k0 :
  0 <= x0 < w -> 0 <= y0 < h -> 0 <= k0 <= 3 ->
  (y0 * w + x0) * 4 + k0 < Z.of_nat (length data) ->
  TypedArray.get (processImageDataWith calc data originalData w h)
                 ((y0 * w + x0) * 4 + k0)
  = Some (TypedArray.ToUint8Clamp (pixelValue calc originalData w h x0 y0 k0)).
Proof.
  intros Hx Hy Hk Hj. unfold processImageDataWith. cbv zeta.
  rewrite copy_get by nia.
  pose proof (sweep_get (pixelValue calc originalData w h) w h
                (TypedArray.alloc (length data)) x0 y0 k0 Hx Hy Hk) as E.
  rewrite alloc_length in E. specialize (E Hj).
  unfold pixelValue in E at 1 2 3 4. cbv beta iota in E.
  rewrite E. cbn [TypedArray.ToUint8Clamp].
  f_equal. pose proof (ToUint8Clamp_range (pixelValue calc originalData w h x0 y0 k0)).
  lia.
Qed.

Lemma convolutionPass_length conv data w h :
  length (GaussianFilter.convolutionPass conv data w h) = length data.
Proof.
  unfold GaussianFilter.convolutionPass. cbv zeta.
  pose proof (sweep_length (pixelValue conv data w h) w h
                (TypedArray.alloc (length data))) as E.
  rewrite alloc_length in E. exact E.
Qed.

Lemma convolutionPass_get conv data w h x0 y0 k0 :
  0 <= x0 < w -> 0 <= y0 < h -> 0 <= k0 <= 3 ->
  (y0 * w + x0) * 4 + k0 < Z.of_nat (length data) ->
  TypedArray.get (GaussianFilter.convolutionPass conv data w h)
                 ((y0 * w + x0) * 4 + k0)
  = Some (TypedArray.ToUint8Clamp (pixelValue conv data w h x0 y0 k0)).
Proof.
  intros Hx Hy Hk Hj. unfold GaussianFilter.convolutionPass. cbv zeta.
  pose proof (sweep_get (pixelValue conv data w h) w h
                (TypedArray.alloc (length data)) x0 y0 k0 Hx Hy Hk) as E.
  rewrite alloc_length in E. exact (E Hj).
Qed.

Lemma pixel_offset_in_raster (data : list Z) (w h x y k : Z) :
  Z.of_nat (length data) = w * h * 4 ->
  0 <= x < w -> 0 <= y < h -> 0 <= k <= 3 ->
  0 <= (y * w + x) * 4 + k < Z.of_nat (length data).
Proof. intros Hl Hx Hy Hk. nia. Qed.

Lemma in_image_spec (x y w h : Z) :
  in_image x y w h = true <-> 0 <= x < w /\ 0 <= y < h.
Proof. unfold in_image. rewrite !andb_true_iff. lia. Qed.

(** ** Alpha and size *)

Lemma process_alpha calc data w h x y :
  is_raster data w h = true -> in_image x y w h = true ->
  TypedArray.get (processImageDataWith calc data data w h) ((y * w + x) * 4 + 3)
  = TypedArray.get data ((y * w + x) * 4 + 3).
Proof.
  intros Hr Hin. apply in_image_spec in Hin. destruct Hin as [Hx Hy].
  pose proof Hr as Hr'. apply is_raster_spec in Hr'. destruct Hr' as [Hl Hb].
  assert (Hj := pixel_offset_in_raster data w h x y 3 Hl Hx Hy ltac:(lia)).
  rewrite processImageDataWith_get by lia.
  unfold pixelValue.
  destruct (get_in_range data _ Hj) as [v [E Hv]]. rewrite E.
  now rewrite ToUint8Clamp_byte by auto.
Qed.

Lemma gaussian_alpha this data w h x y :
  is_raster data w h = true -> in_image x y w h = true ->
  TypedArray.get
    (for_upto (Z.of_nat (length data))
       (fun i d => TypedArray.set d i
          (TypedArray.get
             (GaussianFilter.applyVerticalConvolution this
                (GaussianFilter.applyHorizontalConvolution this data w h) w h) i))
       data)
    ((y * w + x) * 4 + 3)
  = TypedArray.get data ((y * w + x) * 4 + 3).
Proof.
  intros Hr Hin. apply in_image_spec in Hin. destruct Hin as [Hx Hy].
  pose proof Hr as Hr'. apply is_raster_spec in Hr'. destruct Hr' as [Hl Hb].
  assert (Hj := pixel_offset_in_raster data w h x y 3 Hl Hx Hy ltac:(lia)).
  rewrite copy_get by lia.
  unfold GaussianFilter.applyVerticalConvolution, GaussianFilter.applyHorizontalConvolution.
  rewrite convolutionPass_get by (rewrite ?convolutionPass_length; lia).
  unfold pixelValue at 1.
  rewrite convolutionPass_get by lia.
  unfold pixelValue.
  destruct (get_in_range data _ Hj) as [v [E Hv]]. rewrite E.
  cbn [TypedArray.ToUint8Clamp].
  f_equal. apply Hb in Hv. lia.
Qed.

(** C1.  For every filter kind and every input raster, the canvas the filter
    resolves with has the width and height of the input, its raster has the
    length of the input raster, and at every pixel offset the alpha value of
    the output is the alpha value of the input. *)
Theorem alpha_and_size_preserved (f : Filter) (img : ImageElement) (data : list Z) :
  pixels img = Some data ->
  is_raster data (naturalWidth img) (naturalHeight img) = true ->
  exists out : list Z,
    applyFilter f img =
      Resolve {| width := naturalWidth img; height := naturalHeight img;
                 content := Raster out |} /\
    length out = length data /\
    forall x y : Z,
      in_image x y (naturalWidth img) (naturalHeight img) = true ->
      TypedArray.get out ((y * naturalWidth img + x) * 4 + 3)
      = TypedArray.get data ((y * naturalWidth img + x) * 4 + 3).
Proof.
  intros Hp Hr.
  destruct f; cbn [applyFilter].
  9: { unfold GaussianFilter.applyFilter, getImageData. rewrite Hp. cbv zeta.
       eexists. split; [reflexivity|]. split.
       - apply copy_length.
       - intros x y Hin. now apply gaussian_alpha. }
  all: unfold MeanFilter.applyFilter, MedianFilter.applyFilter, MinFilter.applyFilter,
      MaxFilter.applyFilter, MidpointFilter.applyFilter,
      GeometricMeanFilter.applyFilter, HarmonicMeanFilter.applyFilter,
      ContraharmonicMeanFilter.applyFilter, getImageData;
    rewrite Hp; cbv zeta; eexists; (split; [reflexivity|]);
    unfold MeanFilter.processImageData, MedianFilter.processImageData,
      MinFilter.processImageData, MaxFilter.processImageData,
      MidpointFilter.processImageData, GeometricMeanFilter.processImageData,
      HarmonicMeanFilter.processImageData, ContraharmonicMeanFilter.processImageData;
    (split; [apply processImageDataWith_length
            |intros x y Hin; now apply process_alpha]).
Qed.

(** ** Construction *)

Lemma even_rem (k : Z) : Z.even k = true -> (Z.rem k 2 =? 0) = true.
Proof.
  intros H. apply Z.even_spec in H. destruct H as [m ->].
  rewrite Z.mul_comm, Z.rem_mul by lia. reflexivity.
Qed.

Lemma odd_rem (k : Z) : Z.odd k = true -> (Z.rem k 2 =? 0) = false.
Proof.
  intros H. apply Z.eqb_neq. intros E.
  apply Z.rem_divide in E; [|lia]. destruct E as [m ->].
  rewrite Z.mul_comm, Z.odd_mul in H. simpl in H. discriminate.
Qed.

(** C2.  Constructing a filter of any kind with an explicitly supplied even
    kernel size fails with the validation error, and so [new F(size)]
    followed by [applyFilter] fails with it whatever the image: no pixel is
    processed.  With the sizes 3, 5, 7 and 9 the construction succeeds. *)
Theorem even_size_fails_at_construction (p : FilterParams) (k : Z) :
  explicitSize p = Some k ->
  (Z.even k = true ->
     construct p = inl ValidationError /\
     forall img : ImageElement, run p img = inl ValidationError) /\
  (In k [3; 5; 7; 9] -> exists f : Filter, construct p = inr f).
Proof.
  intros Hk. split.
  - intros He. apply even_rem in He.
    assert (Hc : construct p = inl ValidationError).
    { destruct p; cbn in Hk; first [injection Hk as -> | subst]; cbn;
        unfold MeanFilter.constructor, MedianFilter.constructor,
          MinFilter.constructor, MaxFilter.constructor, MidpointFilter.constructor,
          GeometricMeanFilter.constructor, HarmonicMeanFilter.constructor,
          ContraharmonicMeanFilter.constructor, GaussianFilter.constructor;
        rewrite He; reflexivity. }
    split; auto. intros img. unfold run. now rewrite Hc.
  - intros Hin.
    assert (Ho : (Z.rem k 2 =? 0) = false /\ (k <? 0) = false).
    { cbn in Hin. destruct Hin as [<-|[<-|[<-|[<-|[]]]]]; split; reflexivity. }
    destruct Ho as [Ho Hneg].
    destruct p; cbn in Hk; first [injection Hk as -> | subst]; cbn;
      unfold MeanFilter.constructor, MedianFilter.constructor,
        MinFilter.constructor, MaxFilter.constructor, MidpointFilter.constructor,
        GeometricMeanFilter.constructor, HarmonicMeanFilter.constructor,
        ContraharmonicMeanFilter.constructor, GaussianFilter.constructor,
        GaussianFilter.createGaussianKernel;
      rewrite Ho; try rewrite Hneg; cbn; eexists; reflexivity.
Qed.

(** ** Unreadable pixels *)

(** C9.  When [getImageData] throws, Mean, Median, GeometricMean,
    HarmonicMean, ContraharmonicMean and Gaussian resolve with the canvas
    redrawn through a CSS blur, while Min, Max and Midpoint reject with the
    error. *)
Theorem unreadable_pixels_fallback_or_reject (f : Filter) (img : ImageElement) :
  pixels img = None ->
  match f with
  | MinF _ | MaxF _ | MidpointF _ => applyFilter f img = Reject SecurityError
  | GaussianF this =>
      applyFilter f img =
        Resolve {| width := naturalWidth img; height := naturalHeight img;
                   content := CssBlur (GaussianFilter.sigma this) |}
  | _ =>
      applyFilter f img =
        Resolve {| width := naturalWidth img; height := naturalHeight img;
                   content := CssBlur 1 |}
  end.
Proof.
  intros Hp.
  destruct f; cbn [applyFilter];
    unfold MeanFilter.applyFilter, MedianFilter.applyFilter, MinFilter.applyFilter,
      MaxFilter.applyFilter, MidpointFilter.applyFilter,
      GeometricMeanFilter.applyFilter, HarmonicMeanFilter.applyFilter,
      ContraharmonicMeanFilter.applyFilter, GaussianFilter.applyFilter,
      getImageData;
    rewrite Hp; reflexivity.
Qed.

(** ** The default kernel size of the Gaussian filter *)

Lemma lor_1 (z : Z) : Z.lor z 1 = z + 1 - z mod 2.
Proof.
  pose proof (Z.add_lor_land z 1) as E.
  change 1 with (Z.ones 1) in E at 2.
  rewrite Z.land_ones in E by lia. change (2 ^ 1) with 2 in E. lia.
Qed.

Lemma lor_1_odd (z : Z) : Z.odd (Z.lor z 1) = true.
Proof.
  rewrite lor_1. rewrite Zodd_mod.
  pose proof (Z.mod_pos_bound z 2 ltac:(lia)) as Hb.
  assert (Hz : z = 2 * (z / 2) + z mod 2) by (apply Z.div_mod; lia).
  assert (C : z mod 2 = 0 \/ z mod 2 = 1) by lia.
  replace ((z + 1 - z mod 2) mod 2) with 1; [reflexivity|].
  destruct C as [C|C]; rewrite C.
  - replace (z + 1 - 0) with (1 + (z / 2) * 2) by lia.
    now rewrite Z.mod_add by lia.
  - replace (z + 1 - 1) with (1 + (z / 2) * 2) by lia.
    now rewrite Z.mod_add by lia.
Qed.

Lemma ToInt32_small (z : Z) :
  - 2 ^ 31 <= z <= 2 ^ 31 - 1 -> GaussianFilter.ToInt32 z = z.
Proof.
  intros H. unfold GaussianFilter.ToInt32.
  rewrite Z.mod_small by lia. lia.
Qed.



Lemma odd_mod2 (j : Z) : Z.odd j = true -> j mod 2 = 1.
Proof.
  rewrite Zodd_mod. intros H. apply Z.eqb_eq in H. exact H.
Qed.




(** ** Sampler and aggregators

    Each per-pixel method is its aggregator applied, channel by channel, to
    the samples the neighbourhood sampler yields under the boundary
    policy. *)

Lemma fold_left_ext {S A : Type} (f f' : S -> A -> S) (l : list A) (s : S) :
  (forall s' a, f s' a = f' s' a) -> fold_left f l s = fold_left f' l s.
Proof.
  intros H. revert s. induction l as [|a l IH]; intros s; simpl; auto.
  now rewrite H, IH.
Qed.

Lemma fold_left_map {S A B : Type} (f : S -> B -> S) (k : A -> B) (l : list A) (s : S) :
  fold_left f (map k l) s = fold_left (fun s' a => f s' (k a)) l s.
Proof. revert s. induction l as [|a l IH]; intros s; simpl; auto. Qed.

Lemma fold_left_flat_map {S A B : Type} (f : S -> B -> S) (k : A -> list B)
    (l : list A) (s : S) :
  fold_left f (flat_map k l) s = fold_left (fun s' a => fold_left f (k a) s') l s.
Proof.
  revert s. induction l as [|a l IH]; intros s; simpl; auto.
  now rewrite fold_left_app, IH.
Qed.

Lemma fold_left_pair {A B X : Type} (f : A -> X -> A) (k : B -> X -> B)
    (l : list X) (a : A) (c : B) :
  fold_left (fun ac x => let '(a', c') := ac in (f a' x, k c' x)) l (a, c)
  = (fold_left f l a, fold_left k l c).
Proof. revert a c. induction l as [|x l IH]; intros a c; simpl; auto. Qed.

Lemma fold_left_count {X : Type} (l : list X) (c : Z) :
  fold_left (fun c' _ => c' + 1) l c = c + Z.of_nat (length l).
Proof.
  revert c. induction l as [|x l IH]; intros c; simpl length; simpl fold_left.
  - lia.
  - rewrite IH. lia.
Qed.

Lemma neighborhood_fold {S : Type} (F : S -> Z -> S) (r cx cy w h : Z) (s : S) :
  for_incl (- r) r (fun dy =>
    for_incl (- r) r (fun dx acc =>
      F acc ((reflect (cy + dy) h * w + reflect (cx + dx) w) * 4))) s
  = fold_left F (neighborhood r cx cy w h) s.
Proof.
  unfold for_incl, neighborhood.
  rewrite fold_left_flat_map. apply fold_left_ext. intros s' dy.
  now rewrite fold_left_map.
Qed.

(** [Math.abs(v)] and [-v] agree on the negative [v] they are applied to. *)
Lemma reflect_neg (c n : Z) :
  (let v := if c <? 0 then - c else c in
   let v := if v >=? n then n - 1 - (v - n + 1) else v in
   Z.max 0 (Z.min (n - 1) v)) = reflect c n.
Proof.
  unfold reflect. cbv zeta. destruct (Z.ltb_spec c 0); auto.
  now rewrite Z.abs_neq by lia.
Qed.

Lemma neighborhood_fold_neg {S : Type} (F : S -> Z -> S) (r cx cy w h : Z) (s : S) :
  for_incl (- r) r (fun dy =>
    for_incl (- r) r (fun dx acc =>
      let newX := cx + dx in
      let newY := cy + dy in
      let newX := if newX <? 0 then - newX else newX in
      let newX := if newX >=? w then w - 1 - (newX - w + 1) else newX in
      let newY := if newY <? 0 then - newY else newY in
      let newY := if newY >=? h then h - 1 - (newY - h + 1) else newY in
      let newX := Z.max 0 (Z.min (w - 1) newX) in
      let newY := Z.max 0 (Z.min (h - 1) newY) in
      F acc ((newY * w + newX) * 4))) s
  = fold_left F (neighborhood r cx cy w h) s.
Proof.
  rewrite <- neighborhood_fold. unfold for_incl.
  apply fold_left_ext. intros s' dy. apply fold_left_ext. intros s'' dx.
  cbv zeta. rewrite <- (reflect_neg (cy + dy) h), <- (reflect_neg (cx + dx) w).
  reflexivity.
Qed.

Lemma samples_length data c l : length (samples data c l) = length l.
Proof. apply length_map. Qed.

Lemma chan_fold_zip {A : Type} (f : A -> option Z -> A) (data : list Z)
    (c : Channel) (l : list Z) (s : RGB A) :
  chan c (fold_left (fun s' p => rgb_zip f s' (TypedArray.pixelAt data p)) l s)
  = fold_left f (samples data c l) (chan c s).
Proof.
  revert s. induction l as [|p l IH]; intros s; simpl; auto.
  rewrite IH. f_equal. destruct c; simpl; auto. now rewrite Z.add_0_r.
Qed.

Lemma chan_map {A B : Type} (f : A -> B) (c : Channel) (p : RGB A) :
  chan c (rgb_map f p) = f (chan c p).
Proof. now destruct c. Qed.

Lemma chan_zip {A B C : Type} (f : A -> B -> C) (c : Channel) (p : RGB A) (q : RGB B) :
  chan c (rgb_zip f p q) = f (chan c p) (chan c q).
Proof. now destruct c. Qed.

Lemma chan_const {A : Type} (c : Channel) (a : A) : chan c (mkRGB a a a) = a.
Proof. now destruct c. Qed.

Lemma mean_decompose this data cx cy w h c :
  chan c (MeanFilter.calculateMeanValues this data cx cy w h)
  = meanOf (samples data c (neighborhood (radius this) cx cy w h)).
Proof.
  unfold MeanFilter.calculateMeanValues. cbv zeta.
  pose proof (neighborhood_fold
                (fun acc p => let '(sum, count) := acc in
                   (rgb_zip Num.add sum (TypedArray.pixelAt data p), count + 1))
                (radius this) cx cy w h (mkRGB (Some 0) (Some 0) (Some 0), 0)) as E.
  unfold reflect in E. cbv beta zeta in E. rewrite E. clear E.
  rewrite (fold_left_pair
             (fun sum p => rgb_zip Num.add sum (TypedArray.pixelAt data p))
             (fun count _ => count + 1)).
  rewrite chan_map, chan_fold_zip, chan_const, fold_left_count.
  unfold meanOf. now rewrite samples_length.
Qed.

Lemma max_decompose this data cx cy w h c :
  chan c (MaxFilter.calculateMaxValues this data cx cy w h)
  = maxOf (samples data c (neighborhood (radius this) cx cy w h)).
Proof.
  unfold MaxFilter.calculateMaxValues.
  pose proof (neighborhood_fold_neg
                (fun max p => rgb_zip Num.max max (TypedArray.pixelAt data p))
                (radius this) cx cy w h (mkRGB (Some 0) (Some 0) (Some 0))) as E.
  cbv beta zeta in E |- *. rewrite E. clear E.
  now rewrite chan_fold_zip, chan_const.
Qed.

Lemma min_decompose this data cx cy w h c :
  chan c (MinFilter.calculateMinValues this data cx cy w h)
  = minOf (samples data c (neighborhood (radius this) cx cy w h)).
Proof.
  unfold MinFilter.calculateMinValues.
  pose proof (neighborhood_fold_neg
                (fun min p => rgb_zip Num.min min (TypedArray.pixelAt data p))
                (radius this) cx cy w h (mkRGB (Some 255) (Some 255) (Some 255))) as E.
  cbv beta zeta in E |- *. rewrite E. clear E.
  now rewrite chan_fold_zip, chan_const.
Qed.

Lemma midpoint_decompose this data cx cy w h c :
  chan c (MidpointFilter.calculateMidpointValues this data cx cy w h)
  = midpointOf (samples data c (neighborhood (radius this) cx cy w h)).
Proof.
  unfold MidpointFilter.calculateMidpointValues.
  pose proof (neighborhood_fold_neg
                (fun acc p => let '(min, max) := acc in
                   (rgb_zip Num.min min (TypedArray.pixelAt data p),
                    rgb_zip Num.max max (TypedArray.pixelAt data p)))
                (radius this) cx cy w h
                (mkRGB (Some 255) (Some 255) (Some 255),
                 mkRGB (Some 0) (Some 0) (Some 0))) as E.
  cbv beta zeta in E |- *. rewrite E. clear E.
  rewrite (fold_left_pair
             (fun min p => rgb_zip Num.min min (TypedArray.pixelAt data p))
             (fun max p => rgb_zip Num.max max (TypedArray.pixelAt data p))).
  now rewrite chan_zip, !chan_fold_zip, !chan_const.
Qed.

Lemma median_decompose this data cx cy w h c :
  chan c (MedianFilter.calculateMedianValues this data cx cy w h)
  = medianOf (kernelSize this) (samples data c (neighborhood (radius this) cx cy w h)).
Proof.
  unfold MedianFilter.calculateMedianValues.
  pose proof (neighborhood_fold_neg
                (fun hist p => rgb_zip TypedArray.incr16 hist (TypedArray.pixelAt data p))
                (radius this) cx cy w h
                (mkRGB MedianFilter.createHistogram MedianFilter.createHistogram
                       MedianFilter.createHistogram)) as E.
  cbv beta zeta in E |- *. rewrite E. clear E.
  now rewrite chan_map, chan_fold_zip, chan_const.
Qed.

Lemma geometric_decompose this data cx cy w h c :
  chan c (GeometricMeanFilter.calculateGeometricMean this data cx cy w h)
  = geometricOf (samples data c (neighborhood (radius this) cx cy w h)).
Proof.
  unfold GeometricMeanFilter.calculateGeometricMean. cbv zeta.
  pose proof (neighborhood_fold
                (fun acc p => let '(sumLog, count) := acc in
                   (rgb_zip (fun s d => Num.radd s (Num.log (shifted d)))
                            sumLog (TypedArray.pixelAt data p), count + 1))
                (radius this) cx cy w h
                (mkRGB (Some 0%R) (Some 0%R) (Some 0%R), 0)) as E.
  unfold reflect, shifted in E. cbv beta zeta in E. rewrite E. clear E.
  rewrite (fold_left_pair
             (fun s p => rgb_zip (fun s d => Num.radd s
                                    (Num.log (Num.radd (Num.ofZ d) (Some Num.epsilon))))
                                 s (TypedArray.pixelAt data p))
             (fun count _ => count + 1)).
  rewrite chan_map, chan_fold_zip, chan_const, fold_left_count.
  unfold geometricOf. now rewrite samples_length.
Qed.

Lemma harmonic_decompose this data cx cy w h c :
  chan c (HarmonicMeanFilter.calculateHarmonicMean this data cx cy w h)
  = harmonicOf (samples data c (neighborhood (radius this) cx cy w h)).
Proof.
  unfold HarmonicMeanFilter.calculateHarmonicMean. cbv zeta.
  pose proof (neighborhood_fold
                (fun acc p => let '(sumInv, count) := acc in
                   (rgb_zip (fun s d => Num.radd s (Num.rdiv (Some 1%R) (shifted d)))
                            sumInv (TypedArray.pixelAt data p), count + 1))
                (radius this) cx cy w h
                (mkRGB (Some 0%R) (Some 0%R) (Some 0%R), 0)) as E.
  unfold reflect, shifted in E. cbv beta zeta in E. rewrite E. clear E.
  rewrite (fold_left_pair
             (fun s p => rgb_zip (fun s d => Num.radd s
                                    (Num.rdiv (Some 1%R)
                                       (Num.radd (Num.ofZ d) (Some Num.epsilon))))
                                 s (TypedArray.pixelAt data p))
             (fun count _ => count + 1)).
  rewrite chan_map, chan_fold_zip, chan_const, fold_left_count.
  unfold harmonicOf. now rewrite samples_length.
Qed.

Lemma contraharmonic_decompose this data cx cy w h c :
  chan c (ContraharmonicMeanFilter.calculateContraharmonicMean this data cx cy w h)
  = contraharmonicOf (ContraharmonicMeanFilter.Q this)
      (samples data c
         (neighborhood (radius (ContraharmonicMeanFilter.kernel this)) cx cy w h)).
Proof.
  unfold ContraharmonicMeanFilter.calculateContraharmonicMean. cbv zeta.
  set (q := ContraharmonicMeanFilter.Q this).
  pose proof (neighborhood_fold
                (fun acc p => let '(sumPowerQPlus1, sumPowerQ) := acc in
                   (rgb_zip (fun s v => Num.radd s (Num.pow v (q + 1))) sumPowerQPlus1
                      (rgb_map (fun d => Num.radd (Num.ofZ d) (Some Num.epsilon))
                         (TypedArray.pixelAt data p)),
                    rgb_zip (fun s v => Num.radd s (Num.pow v q)) sumPowerQ
                      (rgb_map (fun d => Num.radd (Num.ofZ d) (Some Num.epsilon))
                         (TypedArray.pixelAt data p))))
                (radius (ContraharmonicMeanFilter.kernel this)) cx cy w h
                (mkRGB (Some 0%R) (Some 0%R) (Some 0%R),
                 mkRGB (Some 0%R) (Some 0%R) (Some 0%R))) as E.
  unfold reflect in E. cbv beta zeta in E. rewrite E. clear E.
  rewrite (fold_left_pair
             (fun s p => rgb_zip (fun s d => Num.radd s (Num.pow (shifted d) (q + 1)))
                           s (TypedArray.pixelAt data p))
             (fun s p => rgb_zip (fun s d => Num.radd s (Num.pow (shifted d) q))
                           s (TypedArray.pixelAt data p))).
  now rewrite chan_zip, !chan_fold_zip, !chan_const.
Qed.

(** ** Boundary policy *)

Lemma reflect_cases (c n : Z) :
  reflect c n =
  clampCoord (if c <? 0
              then (if - c <? n then - c else n - 1 - (- c - n + 1))
              else (if c <? n then c else n - 1 - (c - n + 1))) n.
Proof.
  unfold reflect, clampCoord. cbv zeta.
  destruct (Z.ltb_spec c 0).
  - rewrite Z.abs_neq by lia.
    destruct (Z.ltb_spec (- c) n); simp_cmp; reflexivity.
  - destruct (Z.ltb_spec c n); simp_cmp; reflexivity.
Qed.

Lemma reflect_range (c n : Z) : 0 < n -> 0 <= reflect c n <= n - 1.
Proof. intros H. unfold reflect. cbv zeta. lia. Qed.

Lemma reflect_inside (c n : Z) : 0 <= c < n -> reflect c n = c.
Proof. intros H. rewrite reflect_cases. simp_cmp. unfold clampCoord. lia. Qed.

Lemma reflect_below (c n : Z) : c < 0 -> - c < n -> reflect c n = Z.abs c.
Proof. intros H1 H2. rewrite reflect_cases. simp_cmp. unfold clampCoord. lia. Qed.

Lemma reflect_above (c n : Z) :
  n <= c -> c <= 2 * n - 2 -> 0 <= c -> reflect c n = n - 1 - (c - n + 1).
Proof. intros H1 H2 H3. rewrite reflect_cases. simp_cmp. unfold clampCoord. lia. Qed.

(** C3.  The eight neighbourhood filters sample under one boundary policy:
    a coordinate [c] below 0 goes to [|c|], a coordinate at or beyond [n]
    goes to [n - 1 - (c - n + 1)], and the result is clamped into
    [0, n-1]; each per-pixel method is its aggregator over the samples at
    the reflected positions.  On the 3x3 image that is 200 everywhere but 0
    at one corner, the arithmetic mean with kernel size 3 at that corner
    counts the corner pixel once: it is round((8 * 200 + 0) / 9) = 178,
    and not the round(5 * 200 / 9) = 111 of edge replication. *)
Theorem boundary_policy_reflects :
  (forall c n : Z,
     reflect c n =
     clampCoord (if c <? 0
                 then (if - c <? n then - c else n - 1 - (- c - n + 1))
                 else (if c <? n then c else n - 1 - (c - n + 1))) n) /\
  (forall c n : Z, 0 < n ->
     0 <= reflect c n <= n - 1 /\
     (0 <= c < n -> reflect c n = c) /\
     (c < 0 -> - c < n -> reflect c n = Z.abs c) /\
     (n <= c <= 2 * n - 2 -> reflect c n = n - 1 - (c - n + 1))) /\
  (forall (this : Kernel) (data : list Z) (cx cy w h : Z) (c : Channel),
     let s := samples data c (neighborhood (radius this) cx cy w h) in
     chan c (MeanFilter.calculateMeanValues this data cx cy w h) = meanOf s /\
     chan c (MedianFilter.calculateMedianValues this data cx cy w h)
       = medianOf (kernelSize this) s /\
     chan c (MinFilter.calculateMinValues this data cx cy w h) = minOf s /\
     chan c (MaxFilter.calculateMaxValues this data cx cy w h) = maxOf s /\
     chan c (MidpointFilter.calculateMidpointValues this data cx cy w h)
       = midpointOf s /\
     chan c (GeometricMeanFilter.calculateGeometricMean this data cx cy w h)
       = geometricOf s /\
     chan c (HarmonicMeanFilter.calculateHarmonicMean this data cx cy w h)
       = harmonicOf s) /\
  (forall (this : ContraharmonicMeanFilter.t) (data : list Z) (cx cy w h : Z)
          (c : Channel),
     chan c (ContraharmonicMeanFilter.calculateContraharmonicMean this data cx cy w h)
     = contraharmonicOf (ContraharmonicMeanFilter.Q this)
         (samples data c
            (neighborhood (radius (ContraharmonicMeanFilter.kernel this)) cx cy w h))) /\
  Forall (fun '(cx, cy) =>
    exists this : Kernel,
      MeanFilter.constructor 3 = inr this /\
      count_occ Z.eq_dec (neighborhood (radius this) cx cy 3 3) ((cy * 3 + cx) * 4) = 1%nat /\
      forall c : Channel,
        fold_left Num.add
          (samples (cornerImage cx cy) c (neighborhood (radius this) cx cy 3 3)) (Some 0)
          = Some (8 * 200 + 0) /\
        chan c (MeanFilter.calculateMeanValues this (cornerImage cx cy) cx cy 3 3)
          = Some (Num.roundQ (inject_Z (8 * 200 + 0) / 9)) /\
        Num.roundQ (inject_Z (8 * 200 + 0) / 9) = 178 /\
        Num.roundQ (inject_Z (5 * 200 + 4 * 0) / 9) = 111)
    corners.
Proof.
  split; [exact reflect_cases|]. split.
  { intros c n Hn. split; [now apply reflect_range|]. split; [apply reflect_inside|].
    split; [apply reflect_below|]. intros H. apply reflect_above; lia. }
  split.
  { intros this data cx cy w h c s. subst s.
    rewrite mean_decompose, median_decompose, min_decompose, max_decompose,
      midpoint_decompose, geometric_decompose, harmonic_decompose.
    repeat split. }
  split; [exact contraharmonic_decompose|].
  unfold corners.
  repeat (apply Forall_cons || apply Forall_nil);
    (eexists; split; [reflexivity|]; split; [reflexivity|];
     intros c; destruct c; repeat split).
Qed.

(** ** Rounding *)

Lemma roundQ_div (a d : Z) :
  0 < d -> Num.roundQ (inject_Z a / inject_Z d) = (2 * a + d) / (2 * d).
Proof.
  intros Hd. destruct d as [|p|p]; try lia.
  unfold Num.roundQ.
  assert (E : (inject_Z a / inject_Z (Z.pos p) + (1 # 2) == (2 * a + Z.pos p) # (2 * p))%Q).
  { rewrite <- Qmake_Qdiv. unfold Qeq, Qplus. cbn [Qnum Qden].
    rewrite !Pos2Z.inj_mul. ring. }
  rewrite (Qfloor_comp _ _ E). reflexivity.
Qed.

Lemma round_div_Some (a d : Z) :
  0 < d -> Num.round_div (Some a) d = Some ((2 * a + d) / (2 * d)).
Proof.
  intros Hd. unfold Num.round_div. replace (d =? 0) with false by lia.
  now rewrite roundQ_div.
Qed.

(** ** Kernel size 1 *)

Lemma neighborhood_radius_0 (x y w h : Z) :
  0 <= x < w -> 0 <= y < h -> neighborhood 0 x y w h = [(y * w + x) * 4].
Proof.
  intros Hx Hy. unfold neighborhood. change (- 0) with 0.
  rewrite Zrange_single. simpl. rewrite !Z.add_0_r.
  now rewrite !reflect_inside by lia.
Qed.

Lemma pixelValue_chan calc src w h x y c :
  pixelValue calc src w h x y (offset c) = chan c (calc src x y w h).
Proof. now destruct c. Qed.

Lemma offset_range (c : Channel) : 0 <= offset c <= 2.
Proof. destruct c; simpl; lia. Qed.

(** C8.  Constructing an arithmetic mean filter with kernel size 1 succeeds
    (radius 0), and applying it leaves the R, G and B values of every pixel
    of every input raster as they are. *)
Theorem mean_size_1_identity :
  exists this : Kernel,
    MeanFilter.constructor 1 = inr this /\
    radius this = 0 /\
    forall (img : ImageElement) (data : list Z),
      pixels img = Some data ->
      is_raster data (naturalWidth img) (naturalHeight img) = true ->
      exists out : list Z,
        MeanFilter.applyFilter this img =
          Resolve {| width := naturalWidth img; height := naturalHeight img;
                     content := Raster out |} /\
        forall (x y : Z) (c : Channel),
          in_image x y (naturalWidth img) (naturalHeight img) = true ->
          TypedArray.get out ((y * naturalWidth img + x) * 4 + offset c)
          = TypedArray.get data ((y * naturalWidth img + x) * 4 + offset c).
Proof.
  eexists. split; [reflexivity|]. split; [reflexivity|].
  intros img data Hp Hr.
  unfold MeanFilter.applyFilter, getImageData. rewrite Hp. cbv zeta.
  eexists. split; [reflexivity|].
  intros x y c Hin. apply in_image_spec in Hin. destruct Hin as [Hx Hy].
  set (w := naturalWidth img) in *. set (h := naturalHeight img) in *.
  pose proof Hr as Hr'. apply is_raster_spec in Hr'. destruct Hr' as [Hl Hb].
  pose proof (offset_range c) as Hc.
  assert (Hj := pixel_offset_in_raster data w h x y (offset c) Hl Hx Hy ltac:(lia)).
  unfold MeanFilter.processImageData.
  rewrite processImageDataWith_get by lia.
  rewrite pixelValue_chan, mean_decompose. cbn [radius].
  rewrite neighborhood_radius_0 by lia.
  destruct (get_in_range data _ Hj) as [v [E Hv]].
  unfold samples, meanOf. cbn [map length fold_left]. rewrite E.
  cbn [Num.add]. rewrite round_div_Some by lia.
  apply Hb in Hv.
  replace ((2 * (0 + v) + Z.of_nat 1) / (2 * Z.of_nat 1)) with v.
  - now rewrite ToUint8Clamp_byte.
  - change (Z.of_nat 1) with 1. apply Z.div_unique with (r := 1); lia.
Qed.

(** ** Samples of a raster *)

Lemma flat_map_length_const {A B : Type} (f : A -> list B) (l : list A) (m : nat) :
  (forall a, In a l -> length (f a) = m) -> length (flat_map f l) = (length l * m)%nat.
Proof.
  induction l as [|a l IH]; intros H; simpl; auto.
  rewrite length_app. rewrite H by now left.
  rewrite IH by (intros a' Ha'; apply H; now right). reflexivity.
Qed.

Lemma neighborhood_length (r cx cy w h : Z) :
  0 <= r ->
  Z.of_nat (length (neighborhood r cx cy w h)) = (2 * r + 1) * (2 * r + 1).
Proof.
  intros Hr. unfold neighborhood.
  rewrite flat_map_length_const with (m := Z.to_nat (2 * r + 1)).
  - rewrite Zrange_length. replace (r - - r + 1) with (2 * r + 1) by lia. nia.
  - intros dy _. rewrite length_map, Zrange_length. f_equal. lia.
Qed.

Lemma odd_radius (k : Z) : Z.odd k = true -> 1 <= k -> 0 <= k / 2 /\ 2 * (k / 2) + 1 = k.
Proof.
  intros Ho Hk. apply odd_mod2 in Ho.
  pose proof (Z.div_mod k 2 ltac:(lia)). split; [apply Z.div_pos|]; lia.
Qed.

(** Under the boundary policy every sample is read inside the raster. *)
Lemma samples_are_bytes (data : list Z) (w h r cx cy : Z) (c : Channel) :
  is_raster data w h = true -> 0 < w -> 0 < h ->
  exists vs : list Z,
    samples data c (neighborhood r cx cy w h) = map Some vs /\
    length vs = length (neighborhood r cx cy w h) /\
    forall v, In v vs -> 0 <= v <= 255.
Proof.
  intros Hr Hw Hh. apply is_raster_spec in Hr. destruct Hr as [Hl Hb].
  assert (Hidx : forall p, In p (neighborhood r cx cy w h) ->
                           0 <= p + offset c < Z.of_nat (length data)).
  { intros p Hp. unfold neighborhood in Hp.
    apply in_flat_map in Hp. destruct Hp as [dy [_ Hp]].
    apply in_map_iff in Hp. destruct Hp as [dx [<- _]].
    pose proof (reflect_range (cy + dy) h Hh).
    pose proof (reflect_range (cx + dx) w Hw).
    pose proof (offset_range c). nia. }
  induction (neighborhood r cx cy w h) as [|p l IH].
  - exists []. split; [reflexivity|]. split; [reflexivity|]. intros v0 [].
  - destruct IH as [vs [E [Hlen Hvs]]].
    { intros p' Hp'. apply Hidx. now right. }
    destruct (get_in_range data (p + offset c)) as [v0 [Ev Hv]].
    { apply Hidx. now left. }
    exists (v0 :: vs). unfold samples in *. simpl. rewrite Ev, E.
    split; [reflexivity|]. split; [now rewrite Hlen|].
    intros v' [<-|Hin]; auto.
Qed.

Lemma fold_add_Some (vs : list Z) (a : Z) :
  fold_left Num.add (map Some vs) (Some a) = Some (a + Zsum vs).
Proof.
  revert a. induction vs as [|v vs IH]; intros a; simpl.
  - f_equal. lia.
  - rewrite IH. f_equal. lia.
Qed.

Lemma fold_min_Some (vs : list Z) (a : Z) :
  0 <= a <= 255 -> (forall v, In v vs -> 0 <= v <= 255) ->
  exists m, fold_left Num.min (map Some vs) (Some a) = Some m /\ 0 <= m <= a.
Proof.
  revert a. induction vs as [|v vs IH]; intros a Ha Hvs; simpl.
  - exists a. split; auto. lia.
  - assert (Hv : 0 <= v <= 255) by (apply Hvs; now left).
    destruct (IH (Z.min a v)) as [m [E Hm]]; [lia|intros; apply Hvs; now right|].
    exists m. split; auto. lia.
Qed.

Lemma fold_max_Some (vs : list Z) (a : Z) :
  0 <= a <= 255 -> (forall v, In v vs -> 0 <= v <= 255) ->
  exists m, fold_left Num.max (map Some vs) (Some a) = Some m /\ a <= m <= 255.
Proof.
  revert a. induction vs as [|v vs IH]; intros a Ha Hvs; simpl.
  - exists a. split; auto. lia.
  - assert (Hv : 0 <= v <= 255) by (apply Hvs; now left).
    destruct (IH (Z.max a v)) as [m [E Hm]]; [lia|intros; apply Hvs; now right|].
    exists m. split; auto. lia.
Qed.

Lemma Zsum_bounds (vs : list Z) :
  (forall v, In v vs -> 0 <= v <= 255) ->
  0 <= Zsum vs <= 255 * Z.of_nat (length vs).
Proof.
  induction vs as [|v vs IH]; intros H; simpl Zsum; simpl length.
  - lia.
  - assert (0 <= v <= 255) by (apply H; now left).
    assert (0 <= Zsum vs <= 255 * Z.of_nat (length vs))
      by (apply IH; intros; apply H; now right).
    lia.
Qed.

Lemma findMedianLoop_range hist m bins sum :
  (forall i, In i bins -> 0 <= i <= 255) ->
  0 <= MedianFilter.findMedianLoop hist m bins sum <= 255.
Proof.
  revert sum. induction bins as [|i bins IH]; intros sum H; simpl.
  - lia.
  - assert (0 <= i <= 255) by (apply H; now left).
    assert (forall s, 0 <= MedianFilter.findMedianLoop hist m bins s <= 255)
      by (intros; apply IH; intros; apply H; now right).
    destruct (Num.add sum (TypedArray.get hist i)); auto.
    destruct (_ >=? _); auto.
Qed.

Lemma findMedian_range m hist : 0 <= MedianFilter.findMedian m hist <= 255.
Proof.
  apply findMedianLoop_range. intros i Hi. apply Zrange_In in Hi. lia.
Qed.

(** ** Real-valued accumulators *)

Lemma epsilon_pos : (0 < Num.epsilon)%R.
Proof. unfold Num.epsilon. apply Rinv_0_lt_compat. lra. Qed.

Lemma epsilon_small : (Num.epsilon < / 1000000)%R.
Proof.
  unfold Num.epsilon. apply Rinv_lt_contravar; lra.
Qed.

Lemma shifted_Some (v : Z) : shifted (Some v) = Some (IZR v + Num.epsilon)%R.
Proof. reflexivity. Qed.

Lemma shifted_pos (v : Z) : 0 <= v -> (0 < IZR v + Num.epsilon)%R.
Proof.
  intros H. apply IZR_le in H. pose proof epsilon_pos. lra.
Qed.

Lemma fold_radd_Some (F : option Z -> option R) (f : Z -> R) (vs : list Z) (a : R) :
  (forall v, In v vs -> F (Some v) = Some (f v)) ->
  fold_left (fun s d => Num.radd s (F d)) (map Some vs) (Some a)
  = Some (a + Rsum (map f vs))%R.
Proof.
  revert a. induction vs as [|v vs IH]; intros a H; simpl.
  - f_equal. lra.
  - rewrite H by now left. simpl. rewrite IH by (intros; apply H; now right).
    f_equal. lra.
Qed.

Lemma Rsum_bounds (f : Z -> R) (lo hi : R) (vs : list Z) :
  (forall v, In v vs -> (lo <= f v <= hi)%R) ->
  (IZR (Z.of_nat (length vs)) * lo <= Rsum (map f vs)
   <= IZR (Z.of_nat (length vs)) * hi)%R.
Proof.
  induction vs as [|v vs IH]; intros H.
  - simpl. lra.
  - assert (Hv : (lo <= f v <= hi)%R) by (apply H; now left).
    assert (Hvs := IH (fun v' Hv' => H v' (or_intror Hv'))).
    cbn [length map Rsum fold_right]. fold (Rsum (map f vs)).
    rewrite Nat2Z.inj_succ, succ_IZR. lra.
Qed.

Lemma Rsum_shifted (vs : list Z) :
  Rsum (map (fun v => IZR v + Num.epsilon)%R vs)
  = (IZR (Zsum vs) + IZR (Z.of_nat (length vs)) * Num.epsilon)%R.
Proof.
  induction vs as [|v vs IH].
  - simpl. lra.
  - cbn [length map Rsum fold_right Zsum]. fold (Rsum (map (fun v => IZR v + Num.epsilon)%R vs)).
    fold (Zsum vs). rewrite IH, Nat2Z.inj_succ, succ_IZR, plus_IZR. lra.
Qed.

Lemma Rsum_const (k : R) (vs : list Z) :
  Rsum (map (fun _ => k) vs) = (IZR (Z.of_nat (length vs)) * k)%R.
Proof.
  induction vs as [|v vs IH].
  - simpl. lra.
  - cbn [length map Rsum fold_right]. fold (Rsum (map (fun _ => k) vs)).
    rewrite IH, Nat2Z.inj_succ, succ_IZR. lra.
Qed.

Lemma Rsum_ext (f f' : Z -> R) (vs : list Z) :
  (forall v, In v vs -> f v = f' v) -> Rsum (map f vs) = Rsum (map f' vs).
Proof.
  induction vs as [|v vs IH]; intros H; simpl; auto.
  rewrite H by now left. f_equal. apply IH. intros; apply H; now right.
Qed.

(** ** Rounding of reals *)

Lemma Zfloor_IZR_div (a d : Z) : 0 < d -> Zfloor (IZR a / IZR d) = a / d.
Proof.
  intros Hd. apply Zfloor_eq.
  pose proof (Z.div_mod a d ltac:(lia)) as E.
  pose proof (Z.mod_pos_bound a d Hd) as Hm.
  assert (HdR : (0 < IZR d)%R) by (apply IZR_lt; lia).
  assert (Ea : IZR a = (IZR d * IZR (a / d) + IZR (a mod d))%R).
  { rewrite <- mult_IZR, <- plus_IZR. now f_equal. }
  assert (Hm0 : (0 <= IZR (a mod d))%R) by (apply IZR_le; lia).
  assert (Hm1 : (IZR (a mod d) < IZR d)%R) by (apply IZR_lt; lia).
  split.
  - apply Rmult_le_reg_l with (r := IZR d); auto.
    replace (IZR d * (IZR a / IZR d))%R with (IZR a) by (field; lra). lra.
  - apply Rmult_lt_reg_l with (r := IZR d); auto.
    replace (IZR d * (IZR a / IZR d))%R with (IZR a) by (field; lra). lra.
Qed.

(** The rounding of the integer filters agrees with the rounding of the
    real-valued ones. *)
Lemma round_div_real (a d : Z) :
  0 < d -> (2 * a + d) / (2 * d) = Zfloor (IZR a / IZR d + / 2).
Proof.
  intros Hd. rewrite <- Zfloor_IZR_div by lia. f_equal.
  assert (HdR : (0 < IZR d)%R) by (apply IZR_lt; lia).
  rewrite plus_IZR, !mult_IZR. field. lra.
Qed.

Lemma Zfloor_close (x y : R) :
  (y - 1 < x < y + 1)%R -> Zfloor y - 1 <= Zfloor x <= Zfloor y + 1.
Proof.
  intros [H1 H2]. split.
  - replace (Zfloor y - 1) with (Zfloor (y + IZR (-1))) by (rewrite Zfloor_addz; lia).
    apply Zfloor_le. simpl. lra.
  - replace (Zfloor y + 1) with (Zfloor (y + IZR 1)) by (rewrite Zfloor_addz; lia).
    apply Zfloor_le. simpl. lra.
Qed.

Lemma round_range (x : R) :
  (0 <= x < 255 + / 2)%R -> 0 <= Zfloor (x + / 2) <= 255.
Proof.
  intros [H0 H1]. split.
  - apply Zfloor_lub. simpl. lra.
  - assert (H : Zfloor (x + / 2) <= Zfloor (IZR 255)).
    { pose proof (Zfloor_bound (x + / 2)) as [Hlo _].
      rewrite ZfloorZ.
      assert (Hlt : (IZR (Zfloor (x + / 2)) < IZR 256)%R) by lra.
      apply lt_IZR in Hlt. lia. }
    now rewrite ZfloorZ in H.
Qed.

(** ** Aggregators over byte samples *)

Section ByteSamples.

Variable vs : list Z.
Hypothesis bytes : forall v, In v vs -> 0 <= v <= 255.
Hypothesis nonempty : 1 <= Z.of_nat (length vs).

Let N : Z := Z.of_nat (length vs).

Lemma meanOf_bytes :
  meanOf (map Some vs) = Some ((2 * Zsum vs + N) / (2 * N)) /\
  0 <= (2 * Zsum vs + N) / (2 * N) <= 255.
Proof.
  unfold meanOf. rewrite fold_add_Some, length_map. fold N.
  rewrite round_div_Some by (unfold N; lia). split; [reflexivity|].
  pose proof (Zsum_bounds vs bytes) as Hs. fold N in Hs.
  assert (HN : 1 <= N) by exact nonempty.
  split.
  - apply Z.div_pos; lia.
  - assert ((2 * Zsum vs + N) / (2 * N) < 256); [|lia].
    apply Z.div_lt_upper_bound; lia.
Qed.

Lemma minOf_bytes : is_color (minOf (map Some vs)).
Proof.
  destruct (fold_min_Some vs 255 ltac:(lia) bytes) as [m [E Hm]].
  exists m. split; auto.
Qed.

Lemma maxOf_bytes : is_color (maxOf (map Some vs)).
Proof.
  destruct (fold_max_Some vs 0 ltac:(lia) bytes) as [m [E Hm]].
  exists m. split; auto.
Qed.

Lemma midpointOf_bytes : is_color (midpointOf (map Some vs)).
Proof.
  destruct (fold_min_Some vs 255 ltac:(lia) bytes) as [lo [Elo Hlo]].
  destruct (fold_max_Some vs 0 ltac:(lia) bytes) as [hi [Ehi Hhi]].
  unfold midpointOf, minOf, maxOf. rewrite Elo, Ehi. cbn [Num.add].
  rewrite round_div_Some by lia.
  eexists. split; [reflexivity|]. split.
  - apply Z.div_pos; lia.
  - assert ((2 * (lo + hi) + 2) / (2 * 2) < 256); [|lia].
    apply Z.div_lt_upper_bound; lia.
Qed.

(** The harmonic accumulator. *)
Let T : R := Rsum (map (fun v => 1 / (IZR v + Num.epsilon))%R vs).

Lemma harmonic_sum_bounds : (IZR N * / (255 + Num.epsilon) <= T)%R.
Proof.
  pose proof epsilon_pos as He.
  destruct (Rsum_bounds (fun v => 1 / (IZR v + Num.epsilon))%R
              (/ (255 + Num.epsilon))%R (/ Num.epsilon)%R vs) as [Hlo _]; auto.
  intros v Hv. apply bytes in Hv. destruct Hv as [H0 H1].
  apply IZR_le in H0, H1. unfold Rdiv. rewrite Rmult_1_l. split.
  - apply Rinv_le_contravar; lra.
  - apply Rinv_le_contravar; lra.
Qed.

Lemma harmonic_sum_pos : (0 < T)%R.
Proof.
  pose proof harmonic_sum_bounds as H. pose proof epsilon_pos as He.
  assert (HN : (1 <= IZR N)%R) by (apply IZR_le; exact nonempty).
  assert (Hi : (0 < / (255 + Num.epsilon))%R) by (apply Rinv_0_lt_compat; lra).
  nra.
Qed.

Lemma harmonic_quotient_bounds : (0 < IZR N / T <= 255 + Num.epsilon)%R.
Proof.
  pose proof harmonic_sum_bounds as H. pose proof harmonic_sum_pos as HT.
  pose proof epsilon_pos as He.
  assert (HN : (1 <= IZR N)%R) by (apply IZR_le; exact nonempty).
  split.
  - apply Rdiv_lt_0_compat; lra.
  - apply Rmult_le_reg_r with (r := T); auto.
    replace (IZR N / T * T)%R with (IZR N) by (field; lra).
    apply Rmult_le_compat_l with (r := (255 + Num.epsilon)%R) in H; [|lra].
    replace ((255 + Num.epsilon) * (IZR N * / (255 + Num.epsilon)))%R
      with (IZR N) in H by (field; lra).
    exact H.
Qed.

Lemma harmonic_fold :
  fold_left (fun s d => Num.radd s (Num.rdiv (Some 1%R) (shifted d)))
            (map Some vs) (Some 0%R) = Some T.
Proof.
  pose proof (fold_radd_Some (fun d => Num.rdiv (Some 1%R) (shifted d))
                (fun v => 1 / (IZR v + Num.epsilon))%R vs 0) as E.
  cbv beta in E. rewrite E.
  - f_equal. unfold T. lra.
  - intros v Hv. apply bytes in Hv. rewrite shifted_Some. unfold Num.rdiv.
    pose proof (shifted_pos v ltac:(lia)).
    destruct (Req_dec_T _ 0); [lra|reflexivity].
Qed.

Lemma harmonicOf_bytes :
  harmonicOf (map Some vs) = Some (Zfloor (IZR N / T + / 2)) /\
  0 <= Zfloor (IZR N / T + / 2) <= 255.
Proof.
  unfold harmonicOf. rewrite harmonic_fold, length_map. fold N.
  pose proof harmonic_sum_pos as HT.
  unfold Num.rdiv. destruct (Req_dec_T T 0); [lra|]. cbn [Num.round].
  split; [reflexivity|].
  apply round_range. pose proof harmonic_quotient_bounds.
  pose proof epsilon_small. lra.
Qed.

(** The geometric accumulator. *)
Let L : R := Rsum (map (fun v => ln (IZR v + Num.epsilon))%R vs).

Lemma geometric_fold :
  fold_left (fun s d => Num.radd s (Num.log (shifted d)))
            (map Some vs) (Some 0%R) = Some L.
Proof.
  pose proof (fold_radd_Some (fun d => Num.log (shifted d))
                (fun v => ln (IZR v + Num.epsilon))%R vs 0) as E.
  cbv beta in E. rewrite E.
  - f_equal. unfold L. lra.
  - intros v Hv. apply bytes in Hv. rewrite shifted_Some. unfold Num.log.
    pose proof (shifted_pos v ltac:(lia)).
    destruct (Rlt_dec 0 _); [reflexivity|lra].
Qed.

Lemma geometric_mean_bounds :
  (0 < Rtrigo_def.exp (L / IZR N) <= 255 + Num.epsilon)%R.
Proof.
  pose proof epsilon_pos as He.
  assert (HN : (1 <= IZR N)%R) by (apply IZR_le; exact nonempty).
  split; [apply exp_pos|].
  destruct (Rsum_bounds (fun v => ln (IZR v + Num.epsilon))%R
              (ln Num.epsilon) (ln (255 + Num.epsilon)) vs) as [_ Hhi].
  { intros v Hv. apply bytes in Hv. destruct Hv as [H0 H1].
    apply IZR_le in H0, H1. split.
    - destruct (Req_dec (IZR v) 0) as [->|Hne].
      + rewrite Rplus_0_l. lra.
      + left. apply ln_increasing; lra.
    - destruct (Req_dec (IZR v) 255) as [->|Hne].
      + lra.
      + left. apply ln_increasing; lra. }
  fold L in Hhi. fold N in Hhi.
  rewrite <- (exp_ln (255 + Num.epsilon)) by lra.
  assert (Hq : (L / IZR N <= ln (255 + Num.epsilon))%R).
  { apply Rmult_le_reg_l with (r := IZR N); [lra|].
    replace (IZR N * (L / IZR N))%R with L by (field; lra). exact Hhi. }
  destruct Hq as [Hlt | ->]; [left; now apply exp_increasing|lra].
Qed.

Lemma geometricOf_bytes :
  geometricOf (map Some vs)
    = Some (Zfloor (Rtrigo_def.exp (L / IZR N) + / 2)) /\
  0 <= Zfloor (Rtrigo_def.exp (L / IZR N) + / 2) <= 255.
Proof.
  unfold geometricOf. rewrite geometric_fold, length_map. fold N.
  assert (HN : (1 <= IZR N)%R) by (apply IZR_le; exact nonempty).
  unfold Num.rdiv. destruct (Req_dec_T (IZR N) 0); [lra|].
  cbn [Num.exp Num.round]. split; [reflexivity|].
  apply round_range. pose proof geometric_mean_bounds.
  pose proof epsilon_small. lra.
Qed.

End ByteSamples.

(** ** Output range *)

Lemma odd_kernel_samples (k : Z) (data : list Z) (w h x y : Z) (c : Channel) :
  Z.odd k = true -> 1 <= k ->
  is_raster data w h = true -> in_image x y w h = true ->
  exists vs : list Z,
    samples data c (neighborhood (radius (kernelOf k)) x y w h) = map Some vs /\
    Z.of_nat (length vs) = k * k /\
    forall v, In v vs -> 0 <= v <= 255.
Proof.
  intros Ho Hk Hr Hin. apply in_image_spec in Hin.
  destruct (samples_are_bytes data w h (radius (kernelOf k)) x y c Hr)
    as [vs [E [Hlen Hb]]]; try lia.
  exists vs. split; auto. split; auto.
  rewrite Hlen. cbn [radius kernelOf].
  destruct (odd_radius k Ho Hk) as [Hr0 Hr1].
  rewrite neighborhood_length by lia. now rewrite Hr1.
Qed.

Lemma odd_constructors (k : Z) :
  Z.odd k = true ->
  MeanFilter.constructor k = inr (kernelOf k) /\
  MedianFilter.constructor k = inr (kernelOf k) /\
  MinFilter.constructor k = inr (kernelOf k) /\
  MaxFilter.constructor k = inr (kernelOf k) /\
  MidpointFilter.constructor k = inr (kernelOf k) /\
  GeometricMeanFilter.constructor k = inr (kernelOf k) /\
  HarmonicMeanFilter.constructor k = inr (kernelOf k) /\
  forall q : R,
    ContraharmonicMeanFilter.constructor k q
    = inr {| ContraharmonicMeanFilter.kernel := kernelOf k;
             ContraharmonicMeanFilter.Q := q |}.
Proof.
  intros Ho. apply odd_rem in Ho.
  unfold MeanFilter.constructor, MedianFilter.constructor, MinFilter.constructor,
    MaxFilter.constructor, MidpointFilter.constructor,
    GeometricMeanFilter.constructor, HarmonicMeanFilter.constructor,
    ContraharmonicMeanFilter.constructor.
  rewrite Ho. repeat split.
Qed.

(** C10.  For every raster, every odd kernel size from 1 on and every pixel
    of the raster, each colour value that ArithmeticMean, Min, Max,
    Midpoint, Median, GeometricMean and HarmonicMean compute is an integer
    in [0, 255], though none of them clamps its result. *)
Theorem aggregator_outputs_in_byte_range
    (k : Z) (data : list Z) (w h x y : Z) (c : Channel) :
  Z.odd k = true -> 1 <= k ->
  is_raster data w h = true -> in_image x y w h = true ->
  (MeanFilter.constructor k = inr (kernelOf k) /\
   is_color (chan c (MeanFilter.calculateMeanValues (kernelOf k) data x y w h))) /\
  (MinFilter.constructor k = inr (kernelOf k) /\
   is_color (chan c (MinFilter.calculateMinValues (kernelOf k) data x y w h))) /\
  (MaxFilter.constructor k = inr (kernelOf k) /\
   is_color (chan c (MaxFilter.calculateMaxValues (kernelOf k) data x y w h))) /\
  (MidpointFilter.constructor k = inr (kernelOf k) /\
   is_color (chan c (MidpointFilter.calculateMidpointValues (kernelOf k) data x y w h))) /\
  (MedianFilter.constructor k = inr (kernelOf k) /\
   is_color (chan c (MedianFilter.calculateMedianValues (kernelOf k) data x y w h))) /\
  (GeometricMeanFilter.constructor k = inr (kernelOf k) /\
   is_color (chan c (GeometricMeanFilter.calculateGeometricMean (kernelOf k) data x y w h))) /\
  (HarmonicMeanFilter.constructor k = inr (kernelOf k) /\
   is_color (chan c (HarmonicMeanFilter.calculateHarmonicMean (kernelOf k) data x y w h))).
Proof.
  intros Ho Hk Hr Hin.
  destruct (odd_kernel_samples k data w h x y c Ho Hk Hr Hin) as [vs [E [Hlen Hb]]].
  assert (HN : 1 <= Z.of_nat (length vs)) by nia.
  destruct (odd_constructors k Ho) as [C1 [C2 [C3 [C4 [C5 [C6 [C7 _]]]]]]].
  rewrite mean_decompose, min_decompose, max_decompose, midpoint_decompose,
    median_decompose, geometric_decompose, harmonic_decompose, E.
  repeat split; auto.
  - destruct (meanOf_bytes vs Hb HN) as [Em Hm]. rewrite Em. eexists; split; eauto.
  - now apply minOf_bytes.
  - now apply maxOf_bytes.
  - now apply midpointOf_bytes.
  - unfold medianOf. eexists. split; [reflexivity|]. apply findMedian_range.
  - destruct (geometricOf_bytes vs Hb HN) as [Eg Hg]. rewrite Eg. eexists; split; eauto.
  - destruct (harmonicOf_bytes vs Hb HN) as [Eh Hh]. rewrite Eh. eexists; split; eauto.
Qed.

(** ** The contraharmonic mean at Q = 0 and Q = -1 *)

Lemma quotient_close (a b a' b' : R) :
  (0 < b)%R -> (0 < b')%R ->
  (0 < (a / b + 1 - a' / b') * b')%R ->
  (0 < (a' / b' - a / b + 1) * b')%R ->
  (a / b + / 2 - 1 < a' / b' + / 2 < a / b + / 2 + 1)%R.
Proof.
  intros Hb Hb' H1 H2.
  assert (G1 : (0 < a / b + 1 - a' / b')%R).
  { apply Rmult_lt_reg_r with (r := b'); auto. lra. }
  assert (G2 : (0 < a' / b' - a / b + 1)%R).
  { apply Rmult_lt_reg_r with (r := b'); auto. lra. }
  lra.
Qed.

Section Degenerate.

Variable vs : list Z.
Hypothesis bytes : forall v, In v vs -> 0 <= v <= 255.
Hypothesis nonempty : 1 <= Z.of_nat (length vs).

Let N : Z := Z.of_nat (length vs).

Lemma pow_fold (q : R) :
  fold_left (fun s d => Num.radd s (Num.pow (shifted d) q)) (map Some vs) (Some 0%R)
  = Some (Rsum (map (fun v => Rpower (IZR v + Num.epsilon) q) vs)).
Proof.
  pose proof (fold_radd_Some (fun d => Num.pow (shifted d) q)
                (fun v => Rpower (IZR v + Num.epsilon) q) vs 0) as E.
  cbv beta in E. rewrite E.
  - f_equal. lra.
  - intros v Hv. apply bytes in Hv. rewrite shifted_Some. unfold Num.pow.
    pose proof (shifted_pos v ltac:(lia)).
    destruct (Rlt_dec 0 _); [reflexivity|lra].
Qed.

Lemma pow_sum_one :
  Rsum (map (fun v => Rpower (IZR v + Num.epsilon) 1) vs)
  = (IZR (Zsum vs) + IZR N * Num.epsilon)%R.
Proof.
  rewrite <- Rsum_shifted. apply Rsum_ext. intros v Hv. apply bytes in Hv.
  apply Rpower_1. apply shifted_pos. lia.
Qed.

Lemma pow_sum_zero :
  Rsum (map (fun v => Rpower (IZR v + Num.epsilon) 0) vs) = IZR N.
Proof.
  rewrite (Rsum_ext _ (fun _ => 1%R)).
  - rewrite Rsum_const. fold N. lra.
  - intros v Hv. apply bytes in Hv. apply Rpower_O. apply shifted_pos. lia.
Qed.

Lemma pow_sum_inverse :
  Rsum (map (fun v => Rpower (IZR v + Num.epsilon) (-1)) vs)
  = Rsum (map (fun v => 1 / (IZR v + Num.epsilon))%R vs).
Proof.
  apply Rsum_ext. intros v Hv. apply bytes in Hv.
  pose proof (shifted_pos v ltac:(lia)) as Hp.
  replace (-1)%R with (- (1))%R by lra.
  rewrite Rpower_Ropp, Rpower_1 by auto. lra.
Qed.

(** Q = 0: the arithmetic mean. *)
Lemma contraharmonic_0_mean :
  exists m ch : Z,
    meanOf (map Some vs) = Some m /\
    contraharmonicOf 0 (map Some vs) = Some ch /\
    Z.abs (ch - m) <= 1.
Proof.
  destruct (meanOf_bytes vs bytes nonempty) as [Em Hm]. fold N in Em, Hm.
  pose proof (Zsum_bounds vs bytes) as Hs. fold N in Hs.
  pose proof epsilon_pos as He. pose proof epsilon_small as He'.
  assert (HN : (1 <= IZR N)%R) by (apply IZR_le; exact nonempty).
  assert (HS0 : (0 <= IZR (Zsum vs))%R) by (apply IZR_le; lia).
  assert (HS1 : (IZR (Zsum vs) <= 255 * IZR N)%R).
  { rewrite <- mult_IZR. apply IZR_le. lia. }
  unfold contraharmonicOf. rewrite !pow_fold.
  replace (0 + 1)%R with 1%R by lra.
  rewrite pow_sum_one, pow_sum_zero. cbn [Num.radd]. unfold Num.rdiv.
  destruct (Req_dec_T (IZR N + Num.epsilon) 0); [lra|].
  cbn [Num.round Num.clamp255Z].
  eexists. eexists. split; [exact Em|]. split; [reflexivity|].
  rewrite round_div_real in Hm |- * by (unfold N; lia).
  set (M := (IZR (Zsum vs) / IZR N)%R) in *.
  set (A := ((IZR (Zsum vs) + IZR N * Num.epsilon) / (IZR N + Num.epsilon))%R).
  assert (HM : (0 <= M <= 255)%R).
  { unfold M. split.
    - apply Rmult_le_pos; [lra|]. left. apply Rinv_0_lt_compat. lra.
    - apply Rmult_le_reg_r with (r := IZR N); [lra|].
      replace (IZR (Zsum vs) / IZR N * IZR N)%R with (IZR (Zsum vs)) by (field; lra).
      lra. }
  assert (HMe : (0 <= M * Num.epsilon <= 255 * Num.epsilon)%R) by nra.
  assert (Hclose : (M + / 2 - 1 < A + / 2 < M + / 2 + 1)%R).
  { unfold M, A. apply quotient_close; try lra; fold M.
    - replace ((M + 1 - (IZR (Zsum vs) + IZR N * Num.epsilon) / (IZR N + Num.epsilon))
               * (IZR N + Num.epsilon))%R
        with (M * IZR N + M * Num.epsilon + IZR N + Num.epsilon
              - (IZR (Zsum vs) + IZR N * Num.epsilon))%R by (field; lra).
      replace (M * IZR N)%R with (IZR (Zsum vs)) by (unfold M; field; lra).
      nra.
    - replace (((IZR (Zsum vs) + IZR N * Num.epsilon) / (IZR N + Num.epsilon) - M + 1)
               * (IZR N + Num.epsilon))%R
        with ((IZR (Zsum vs) + IZR N * Num.epsilon)
              - M * IZR N - M * Num.epsilon + IZR N + Num.epsilon)%R by (field; lra).
      replace (M * IZR N)%R with (IZR (Zsum vs)) by (unfold M; field; lra).
      nra. }
  apply Zfloor_close in Hclose. lia.
Qed.

(** Q = -1: the harmonic mean. *)
Lemma contraharmonic_m1_harmonic :
  exists hm ch : Z,
    harmonicOf (map Some vs) = Some hm /\
    contraharmonicOf (-1) (map Some vs) = Some ch /\
    Z.abs (ch - hm) <= 1.
Proof.
  destruct (harmonicOf_bytes vs bytes nonempty) as [Eh Hh]. fold N in Eh, Hh.
  pose proof (harmonic_sum_bounds vs bytes) as Hlo.
  pose proof (harmonic_sum_pos vs bytes nonempty) as HT.
  pose proof (harmonic_quotient_bounds vs bytes nonempty) as Hq.
  fold N in Hlo, Hq.
  set (T := Rsum (map (fun v => 1 / (IZR v + Num.epsilon))%R vs)) in *.
  pose proof epsilon_pos as He. pose proof epsilon_small as He'.
  assert (HN : (1 <= IZR N)%R) by (apply IZR_le; exact nonempty).
  unfold contraharmonicOf. rewrite !pow_fold.
  replace (-1 + 1)%R with 0%R by lra.
  rewrite pow_sum_zero, pow_sum_inverse. fold T. cbn [Num.radd]. unfold Num.rdiv.
  destruct (Req_dec_T (T + Num.epsilon) 0); [lra|].
  cbn [Num.round Num.clamp255Z].
  eexists. eexists. split; [exact Eh|]. split; [reflexivity|].
  set (H := (IZR N / T)%R) in *.
  assert (HHT : (H * T = IZR N)%R) by (unfold H; field; lra).
  assert (HTlo : (/ 256 <= T)%R).
  { assert (Hi : (/ 256 <= / (255 + Num.epsilon))%R)
      by (apply Rinv_le_contravar; lra).
    assert (Hi0 : (0 < / (255 + Num.epsilon))%R)
      by (apply Rinv_0_lt_compat; lra).
    nra. }
  assert (HHe : (0 <= H * Num.epsilon <= 256 * / 1000000)%R) by nra.
  assert (Hclose : (H + / 2 - 1 < IZR N / (T + Num.epsilon) + / 2 < H + / 2 + 1)%R).
  { unfold H. apply quotient_close; try lra; fold H.
    - replace ((H + 1 - IZR N / (T + Num.epsilon)) * (T + Num.epsilon))%R
        with (H * T + H * Num.epsilon + T + Num.epsilon - IZR N)%R by (field; lra).
      lra.
    - replace ((IZR N / (T + Num.epsilon) - H + 1) * (T + Num.epsilon))%R
        with (IZR N - H * T - H * Num.epsilon + T + Num.epsilon)%R by (field; lra).
      lra. }
  apply Zfloor_close in Hclose. lia.
Qed.

End Degenerate.

(** C7.  On the same neighbourhood of a raster, per channel, the
    contraharmonic mean with Q = 0 is within 1 of the arithmetic mean, and
    the contraharmonic mean with Q = -1 is within 1 of the harmonic mean. *)
Theorem contraharmonic_degenerate_cases
    (k : Z) (data : list Z) (w h x y : Z) (c : Channel) :
  Z.odd k = true -> 1 <= k ->
  is_raster data w h = true -> in_image x y w h = true ->
  (exists (this0 : ContraharmonicMeanFilter.t) (m ch : Z),
     ContraharmonicMeanFilter.constructor k 0 = inr this0 /\
     chan c (MeanFilter.calculateMeanValues (kernelOf k) data x y w h) = Some m /\
     chan c (ContraharmonicMeanFilter.calculateContraharmonicMean this0 data x y w h)
       = Some ch /\
     Z.abs (ch - m) <= 1) /\
  (exists (this1 : ContraharmonicMeanFilter.t) (hm ch : Z),
     ContraharmonicMeanFilter.constructor k (-1) = inr this1 /\
     chan c (HarmonicMeanFilter.calculateHarmonicMean (kernelOf k) data x y w h) = Some hm /\
     chan c (ContraharmonicMeanFilter.calculateContraharmonicMean this1 data x y w h)
       = Some ch /\
     Z.abs (ch - hm) <= 1).
Proof.
  intros Ho Hk Hr Hin.
  destruct (odd_kernel_samples k data w h x y c Ho Hk Hr Hin) as [vs [E [Hlen Hb]]].
  assert (HN : 1 <= Z.of_nat (length vs)) by nia.
  destruct (odd_constructors k Ho) as [_ [_ [_ [_ [_ [_ [_ HC]]]]]]].
  split.
  - destruct (contraharmonic_0_mean vs Hb HN) as [m [ch [Em [Ec Hd]]]].
    eexists. exists m, ch. split; [apply HC|].
    rewrite mean_decompose, contraharmonic_decompose. cbn [ContraharmonicMeanFilter.kernel
      ContraharmonicMeanFilter.Q]. rewrite E. auto.
  - destruct (contraharmonic_m1_harmonic vs Hb HN) as [hm [ch [Em [Ec Hd]]]].
    eexists. exists hm, ch. split; [apply HC|].
    rewrite harmonic_decompose, contraharmonic_decompose. cbn [ContraharmonicMeanFilter.kernel
      ContraharmonicMeanFilter.Q]. rewrite E. auto.
Qed.

(** ** The median by histogram *)

Lemma Zrange_cons (lo hi : Z) : lo <= hi -> Zrange lo hi = lo :: Zrange (lo + 1) hi.
Proof.
  intros H. unfold Zrange.
  replace (Z.to_nat (hi - lo + 1)) with (S (Z.to_nat (hi - (lo + 1) + 1))) by lia.
  cbn [seq map]. f_equal; [lia|].
  rewrite <- seq_shift, map_map. apply map_ext. intros k. lia.
Qed.

Lemma get_alloc (n : nat) (i : Z) :
  0 <= i < Z.of_nat n -> TypedArray.get (TypedArray.alloc n) i = Some 0.
Proof.
  intros H. destruct (get_in_range (TypedArray.alloc n) i) as [v [E Hv]].
  - now rewrite alloc_length.
  - rewrite E. f_equal. unfold TypedArray.alloc in Hv.
    now apply repeat_spec in Hv.
Qed.

Lemma countEq_cons (t v : Z) (l : list Z) :
  countEq t (v :: l) = (if v =? t then 1 else 0) + countEq t l.
Proof.
  unfold countEq. cbn [filter]. destruct (v =? t); cbn [length]; lia.
Qed.

Lemma countLe_cons (t v : Z) (l : list Z) :
  countLe t (v :: l) = (if v <=? t then 1 else 0) + countLe t l.
Proof.
  unfold countLe. cbn [filter]. destruct (v <=? t); cbn [length]; lia.
Qed.

Lemma countLe_step (t : Z) (l : list Z) :
  countLe t l = countLe (t - 1) l + countEq t l.
Proof.
  induction l as [|v l IH].
  - reflexivity.
  - rewrite !countLe_cons, countEq_cons, IH.
    destruct (Z.leb_spec v t), (Z.leb_spec v (t - 1)), (Z.eqb_spec v t); lia.
Qed.

Lemma countLe_below (l : list Z) :
  (forall v, In v l -> 0 <= v <= 255) -> countLe (-1) l = 0.
Proof.
  induction l as [|v l IH]; intros H.
  - reflexivity.
  - rewrite countLe_cons, IH by (intros; apply H; now right).
    assert (0 <= v <= 255) by (apply H; now left).
    destruct (Z.leb_spec v (-1)); lia.
Qed.

Lemma countLe_all (l : list Z) :
  (forall v, In v l -> 0 <= v <= 255) -> countLe 255 l = Z.of_nat (length l).
Proof.
  induction l as [|v l IH]; intros H.
  - reflexivity.
  - rewrite countLe_cons, IH by (intros; apply H; now right).
    assert (0 <= v <= 255) by (apply H; now left).
    destruct (Z.leb_spec v 255); cbn [length]; lia.
Qed.

(** While no counter reaches 2^16, the histogram holds the number of
    occurrences of each value. *)
Lemma histogram_counts (vs : list Z) (h0 : list Z) (c0 : Z -> Z) :
  length h0 = 256%nat ->
  (forall i, 0 <= i < 256 -> TypedArray.get h0 i = Some (c0 i)) ->
  (forall v, In v vs -> 0 <= v <= 255) ->
  (forall i, 0 <= i < 256 -> 0 <= c0 i /\ c0 i + Z.of_nat (length vs) < 65536) ->
  length (fold_left TypedArray.incr16 (map Some vs) h0) = 256%nat /\
  forall i, 0 <= i < 256 ->
    TypedArray.get (fold_left TypedArray.incr16 (map Some vs) h0) i
    = Some (c0 i + countEq i vs).
Proof.
  revert h0 c0. induction vs as [|v vs IH]; intros h0 c0 Hlen Hget Hb Hc.
  - simpl. split; auto. intros i Hi. rewrite Hget by auto. f_equal.
    unfold countEq. simpl. lia.
  - assert (Hv : 0 <= v <= 255) by (apply Hb; now left).
    destruct (Hc v ltac:(lia)) as [Hc0 Hc1]. cbn [length] in Hc1.
    assert (E : TypedArray.incr16 h0 (Some v)
                = TypedArray.update (Z.to_nat v) (c0 v + 1) h0).
    { unfold TypedArray.incr16. rewrite Hget by lia.
      now rewrite Z.mod_small by lia. }
    cbn [map fold_left]. rewrite E.
    destruct (IH (TypedArray.update (Z.to_nat v) (c0 v + 1) h0)
                 (fun i => if i =? v then c0 i + 1 else c0 i)) as [Hl Hg].
    + now rewrite update_length.
    + intros i Hi. unfold TypedArray.get. replace (i <? 0) with false by lia.
      destruct (Z.eqb_spec i v) as [->|Hne].
      * apply nth_error_update_same. lia.
      * rewrite nth_error_update_other by lia.
        specialize (Hget i Hi). unfold TypedArray.get in Hget.
        now replace (i <? 0) with false in Hget by lia.
    + intros v' Hv'. apply Hb. now right.
    + intros i Hi. destruct (Hc i Hi) as [H0 H1]. cbn [length] in H1.
      destruct (Z.eqb_spec i v); lia.
    + split; auto. intros i Hi. rewrite Hg by auto. f_equal.
      rewrite countEq_cons.
      destruct (Z.eqb_spec i v), (Z.eqb_spec v i); lia.
Qed.

Lemma histogramOf_counts (vs : list Z) :
  (forall v, In v vs -> 0 <= v <= 255) ->
  Z.of_nat (length vs) < 65536 ->
  forall i, 0 <= i < 256 ->
    TypedArray.get (histogramOf (map Some vs)) i = Some (countEq i vs).
Proof.
  intros Hb Hn i Hi. unfold histogramOf, MedianFilter.createHistogram.
  assert (Hg := histogram_counts vs (TypedArray.alloc 256) (fun _ => 0)
                  eq_refl (fun j Hj => get_alloc 256 j Hj) Hb).
  destruct Hg as [_ Hg]; [intros j Hj; lia|].
  now rewrite Hg.
Qed.

(** [findMedian] stops at the first bin at which the cumulative count
    reaches the rank. *)
Lemma findMedianLoop_spec (vs hist : list Z) (m : Z) :
  (forall i, 0 <= i < 256 -> TypedArray.get hist i = Some (countEq i vs)) ->
  m <= countLe 255 vs ->
  forall (n : nat) (i : Z),
    i = 256 - Z.of_nat n -> 0 <= i ->
    countLe (i - 1) vs < m ->
    let res := MedianFilter.findMedianLoop hist m (Zrange i 255)
                 (Some (countLe (i - 1) vs)) in
    i <= res <= 255 /\ countLe (res - 1) vs < m <= countLe res vs.
Proof.
  intros Hh Hm. induction n as [|n IH]; intros i Hi Hi0 Hlt; cbv zeta.
  - exfalso. replace (i - 1) with 255 in Hlt by lia. lia.
  - rewrite Zrange_cons by lia. cbn [MedianFilter.findMedianLoop].
    rewrite Hh by lia. cbn [Num.add].
    rewrite <- countLe_step.
    destruct (Z.geb_spec (countLe i vs) m) as [Hge|Hnot].
    + lia.
    + specialize (IH (i + 1) ltac:(lia) ltac:(lia)).
      replace (i + 1 - 1) with i in IH by lia.
      specialize (IH Hnot). cbv zeta in IH. lia.
Qed.

Lemma findMedian_spec (vs : list Z) (m : Z) :
  (forall v, In v vs -> 0 <= v <= 255) ->
  Z.of_nat (length vs) < 65536 ->
  1 <= m <= Z.of_nat (length vs) ->
  let res := MedianFilter.findMedian m (histogramOf (map Some vs)) in
  0 <= res <= 255 /\ countLe (res - 1) vs < m <= countLe res vs.
Proof.
  intros Hb Hn Hm. cbv zeta. unfold MedianFilter.findMedian.
  pose proof (findMedianLoop_spec vs (histogramOf (map Some vs)) m
                (histogramOf_counts vs Hb Hn)) as H.
  rewrite countLe_all in H by auto.
  specialize (H ltac:(lia) 256%nat 0 ltac:(lia) ltac:(lia)).
  change (0 - 1) with (-1) in H. rewrite countLe_below in H by auto.
  apply H. lia.
Qed.

(** ** Order statistics *)

Lemma insert_In (x v : Z) (l : list Z) : In v (insert x l) <-> v = x \/ In v l.
Proof.
  induction l as [|y l IH]; simpl.
  - intuition.
  - destruct (x <=? y); simpl; rewrite ?IH; intuition.
Qed.

Lemma insert_sorted (x : Z) (l : list Z) :
  StronglySorted Z.le l -> StronglySorted Z.le (insert x l).
Proof.
  induction 1 as [|y l Hs IH Hall]; simpl.
  - constructor; constructor.
  - destruct (Z.leb_spec x y).
    + constructor.
      * now constructor.
      * constructor; [lia|]. rewrite Forall_forall in *. intros z Hz.
        specialize (Hall z Hz). lia.
    + constructor; auto. rewrite Forall_forall in *. intros z Hz.
      apply insert_In in Hz. destruct Hz as [-> | Hz]; [lia|auto].
Qed.

Lemma sort_sorted (l : list Z) : StronglySorted Z.le (sort l).
Proof.
  induction l as [|x l IH]; simpl; [constructor|now apply insert_sorted].
Qed.

Lemma countLe_insert (t x : Z) (l : list Z) :
  countLe t (insert x l) = countLe t (x :: l).
Proof.
  induction l as [|y l IH]; simpl; auto.
  destruct (x <=? y); auto.
  rewrite countLe_cons, IH, !countLe_cons. lia.
Qed.

Lemma countLe_sort (t : Z) (l : list Z) : countLe t (sort l) = countLe t l.
Proof.
  induction l as [|x l IH]; simpl; auto.
  now rewrite countLe_insert, !countLe_cons, IH.
Qed.

(** A sorted list is its elements up to [t] followed by the others. *)
Lemma sorted_split (t : Z) (l : list Z) :
  StronglySorted Z.le l ->
  l = filter (fun v => v <=? t) l ++ filter (fun v => negb (v <=? t)) l.
Proof.
  induction 1 as [|y l Hs IH Hall]; simpl; auto.
  destruct (Z.leb_spec y t); simpl.
  - now rewrite <- IH.
  - rewrite Forall_forall in Hall.
    assert (E1 : filter (fun v => v <=? t) l = []).
    { clear IH Hs. induction l as [|z l IHl]; simpl; auto.
      assert (y <= z) by (apply Hall; now left).
      destruct (Z.leb_spec z t); [lia|].
      apply IHl. intros; apply Hall; now right. }
    assert (E2 : filter (fun v => negb (v <=? t)) l = l).
    { clear IH Hs E1. induction l as [|z l IHl]; simpl; auto.
      assert (y <= z) by (apply Hall; now left).
      destruct (Z.leb_spec z t); [lia|]. simpl. f_equal.
      apply IHl. intros; apply Hall; now right. }
    now rewrite E1, E2.
Qed.

(** The element of rank [k] is the value [res] at which the cumulative count
    first reaches [k]. *)
Lemma kth_smallest_char (vs : list Z) (k res : Z) :
  1 <= k ->
  countLe (res - 1) vs < k <= countLe res vs ->
  kth_smallest k vs = Some res.
Proof.
  intros Hk [Hlo Hhi]. unfold kth_smallest. replace (k <=? 0) with false by lia.
  set (n := Z.to_nat (k - 1)).
  pose proof (sort_sorted vs) as Hs.
  rewrite <- (countLe_sort res) in Hhi. rewrite <- (countLe_sort (res - 1)) in Hlo.
  unfold countLe in Hhi, Hlo.
  pose proof (sorted_split res (sort vs) Hs) as E1.
  pose proof (sorted_split (res - 1) (sort vs) Hs) as E2.
  destruct (nth_error (sort vs) n) as [a|] eqn:Ea.
  - f_equal.
    assert (Ha1 : a <= res).
    { rewrite E1 in Ea. rewrite nth_error_app1 in Ea by lia.
      apply nth_error_In, filter_In in Ea. lia. }
    assert (Ha2 : res - 1 < a).
    { rewrite E2 in Ea. rewrite nth_error_app2 in Ea by lia.
      apply nth_error_In, filter_In in Ea. lia. }
    lia.
  - exfalso. apply nth_error_None in Ea.
    pose proof (filter_length_le (fun v => v <=? res) (sort vs)). lia.
Qed.

(** The median filter computes the order statistic of rank
    [floor(N/2) + 1] as long as its 16-bit counters cannot wrap, that is
    for [N = size * size < 2^16]. *)
Lemma median_is_order_statistic (k : Z) (data : list Z) (w h x y : Z) (c : Channel) :
  Z.odd k = true -> 1 <= k -> k * k < 65536 ->
  is_raster data w h = true -> in_image x y w h = true ->
  chan c (MedianFilter.calculateMedianValues (kernelOf k) data x y w h)
  = kth_smallest (k * k / 2 + 1)
      (defined (samples data c (neighborhood (radius (kernelOf k)) x y w h))).
Proof.
  intros Ho Hk Hsmall Hr Hin.
  destruct (odd_kernel_samples k data w h x y c Ho Hk Hr Hin) as [vs [E [Hlen Hb]]].
  rewrite median_decompose, E. cbn [kernelSize kernelOf].
  assert (Ed : defined (map Some vs) = vs).
  { clear. induction vs as [|v vs IH]; simpl; auto. now rewrite IH. }
  rewrite Ed. unfold medianOf. symmetry.
  assert (Hm : 1 <= k * k / 2 + 1 <= Z.of_nat (length vs)).
  { rewrite Hlen. assert (1 <= k * k) by nia.
    pose proof (Z.div_pos (k * k) 2 ltac:(lia) ltac:(lia)).
    assert (k * k / 2 < k * k) by (apply Z.div_lt; lia). lia. }
  apply kth_smallest_char; [lia|].
  apply findMedian_spec; auto. lia.
Qed.

(** C4.  With kernel size 257 the neighbourhood has 66049 samples; on a
    raster of one black pixel they are all 0, the 16-bit counter of bin 0
    wraps to 513, the cumulative count never reaches the rank 33025, and
    the filter returns 255 where the order statistic is 0. *)
Theorem median_counter_overflow :
  MedianFilter.constructor 257 = inr (kernelOf 257) /\
  is_raster blackPixel 1 1 = true /\
  forall c : Channel,
    chan c (MedianFilter.calculateMedianValues (kernelOf 257) blackPixel 0 0 1 1)
      = Some 255 /\
    kth_smallest (257 * 257 / 2 + 1)
      (defined (samples blackPixel c (neighborhood (radius (kernelOf 257)) 0 0 1 1)))
      = Some 0 /\
    TypedArray.get
      (histogramOf (samples blackPixel c (neighborhood (radius (kernelOf 257)) 0 0 1 1))) 0
      = Some (257 * 257 - 65536).
Proof.
  split; [reflexivity|]. split; [reflexivity|].
  intros c.
  destruct c;
    (split; [vm_compute; reflexivity|]; split; vm_compute; reflexivity).
Qed.

(** ** The Gaussian kernel in exact arithmetic *)

Lemma fold_radd_values (f : Z -> R) (l : list Z) (a : R) :
  fold_left Num.radd (map (fun i => Some (f i)) l) (Some a)
  = Some (a + Rsum (map f l))%R.
Proof.
  revert a. induction l as [|i l IH]; intros a; simpl.
  - f_equal. lra.
  - rewrite IH. f_equal. lra.
Qed.

Lemma Rsum_pos (f : Z -> R) (l : list Z) :
  l <> [] -> (forall i, 0 < f i)%R -> (0 < Rsum (map f l))%R.
Proof.
  intros Hne Hf. destruct l as [|i l]; [congruence|]. clear Hne.
  revert i. induction l as [|j l IH]; intros i; simpl.
  - specialize (Hf i). lra.
  - specialize (IH j). simpl in IH. specialize (Hf i). lra.
Qed.

Lemma Rsum_scale (f : Z -> R) (s : R) (l : list Z) :
  Rsum (map (fun i => f i / s)%R l) = (Rsum (map f l) / s)%R.
Proof.
  induction l as [|i l IH]; simpl.
  - unfold Rdiv. now rewrite Rmult_0_l.
  - rewrite IH. unfold Rdiv. ring.
Qed.

(** With real numbers for the doubles, the kernel of a Gaussian filter with
    [sigma > 0] and an odd size holds the values
    [exp(-(i - radius)^2 / (2 sigma^2))] divided by their sum, and its
    entries sum to exactly 1.  The rounding of [Math.exp], of the division
    and of the storage in a [Float32Array] is outside this embedding. *)
Lemma gaussian_kernel_exact_sum (sigma : R) (k : Z) :
  (0 < sigma)%R -> Z.odd k = true -> 1 <= k ->
  let value := fun i : Z =>
    Rtrigo_def.exp (- IZR ((i - k / 2) * (i - k / 2)) / (2 * sigma * sigma)) in
  let sum := Rsum (map value (Zrange 0 (k - 1))) in
  exists f : GaussianFilter.t,
    GaussianFilter.constructor sigma (Some k) = inr f /\
    GaussianFilter.kernelSize f = k /\
    GaussianFilter.kernel f
      = map (fun i => Some (value i / sum)%R) (Zrange 0 (k - 1)) /\
    Rsum (map (fun i => value i / sum)%R (Zrange 0 (k - 1))) = 1%R.
Proof.
  intros Hs Ho Hk value sum.
  assert (Hne : Zrange 0 (k - 1) <> []) by (rewrite Zrange_cons by lia; discriminate).
  assert (Hsum : (0 < sum)%R).
  { apply Rsum_pos; auto. intros i. apply exp_pos. }
  assert (Hs2 : (2 * sigma * sigma <> 0)%R) by nra.
  unfold GaussianFilter.constructor, GaussianFilter.createGaussianKernel.
  rewrite (odd_rem k Ho). replace (k <? 0) with false by lia. cbv zeta.
  assert (Ev : map (fun i => GaussianFilter.gaussian ((i - k / 2) * (i - k / 2))
                               (2 * sigma * sigma))
                   (Zrange 0 (k - 1))
               = map (fun i => Some (value i)) (Zrange 0 (k - 1))).
  { apply map_ext. intros i. unfold GaussianFilter.gaussian.
    destruct (Req_dec_T _ 0); [contradiction|reflexivity]. }
  rewrite Ev, fold_radd_values. fold sum.
  replace (0 + sum)%R with sum by lra.
  eexists. split; [reflexivity|]. cbn [GaussianFilter.kernelSize GaussianFilter.kernel].
  split; [reflexivity|]. split.
  - rewrite map_map. apply map_ext. intros i. unfold Num.rdiv.
    destruct (Req_dec_T sum 0); [lra|reflexivity].
  - rewrite Rsum_scale. fold sum. field. lra.
Qed.

(** * Further properties of the filters *)

(** ** Aggregators keep within the range of their samples *)

Lemma fold_min_value (vs : list Z) (a : Z) :
  fold_left Num.min (map Some vs) (Some a) = Some (fold_left Z.min vs a).
Proof. revert a. induction vs as [|v vs IH]; intros a; simpl; auto. Qed.

Lemma fold_max_value (vs : list Z) (a : Z) :
  fold_left Num.max (map Some vs) (Some a) = Some (fold_left Z.max vs a).
Proof. revert a. induction vs as [|v vs IH]; intros a; simpl; auto. Qed.

Lemma fold_Zmin_le (vs : list Z) (a : Z) :
  fold_left Z.min vs a <= a /\ forall v, In v vs -> fold_left Z.min vs a <= v.
Proof.
  revert a. induction vs as [|v vs IH]; intros a; simpl.
  - split; [lia|intros v []].
  - destruct (IH (Z.min a v)) as [H1 H2]. split; [lia|].
    intros v' [<-|Hin]; [lia|auto].
Qed.

Lemma fold_Zmax_ge (vs : list Z) (a : Z) :
  a <= fold_left Z.max vs a /\ forall v, In v vs -> v <= fold_left Z.max vs a.
Proof.
  revert a. induction vs as [|v vs IH]; intros a; simpl.
  - split; [lia|intros v []].
  - destruct (IH (Z.max a v)) as [H1 H2]. split; [lia|].
    intros v' [<-|Hin]; [lia|auto].
Qed.

Lemma fold_Zmin_in (vs : list Z) (a : Z) :
  fold_left Z.min vs a = a \/ In (fold_left Z.min vs a) vs.
Proof.
  revert a. induction vs as [|v vs IH]; intros a; simpl; auto.
  destruct (IH (Z.min a v)) as [E|Hin]; [|now right; right].
  rewrite E. destruct (Z.min_spec a v) as [[_ ->]|[_ ->]]; auto.
Qed.

Lemma fold_Zmax_in (vs : list Z) (a : Z) :
  fold_left Z.max vs a = a \/ In (fold_left Z.max vs a) vs.
Proof.
  revert a. induction vs as [|v vs IH]; intros a; simpl; auto.
  destruct (IH (Z.max a v)) as [E|Hin]; [|now right; right].
  rewrite E. destruct (Z.max_spec a v) as [[_ ->]|[_ ->]]; auto.
Qed.

Lemma round_between (x : R) (lo hi : Z) :
  (IZR lo <= x < IZR hi + / 2)%R -> lo <= Zfloor (x + / 2) <= hi.
Proof.
  intros [H0 H1]. split.
  - apply Zfloor_lub. lra.
  - pose proof (Zfloor_bound (x + / 2)) as [Hlo _].
    assert (Hlt : (IZR (Zfloor (x + / 2)) < IZR (hi + 1))%R)
      by (rewrite plus_IZR; lra).
    apply lt_IZR in Hlt. lia.
Qed.

Lemma ln_mono (a c : R) : (0 < a <= c)%R -> (ln a <= ln c)%R.
Proof.
  intros [Ha [Hlt | ->]]; [left; now apply ln_increasing|lra].
Qed.

Lemma exp_mono (a c : R) : (a <= c)%R -> (Rtrigo_def.exp a <= Rtrigo_def.exp c)%R.
Proof.
  intros [Hlt | ->]; [left; now apply exp_increasing|lra].
Qed.

Section BoundedSamples.

Variable vs : list Z.
Variables lo hi : Z.
Hypothesis bounded : forall v, In v vs -> lo <= v <= hi.
Hypothesis lo_nonneg : 0 <= lo.
Hypothesis hi_byte : hi <= 255.
Hypothesis nonempty : 1 <= Z.of_nat (length vs).

Let N : Z := Z.of_nat (length vs).

Lemma bounded_bytes : forall v, In v vs -> 0 <= v <= 255.
Proof. intros v Hv. apply bounded in Hv. lia. Qed.

Lemma bounds_ordered : lo <= hi.
Proof.
  destruct vs as [|v l]; [simpl in nonempty; lia|].
  specialize (bounded v (or_introl eq_refl)). lia.
Qed.

Lemma Zsum_between : N * lo <= Zsum vs <= N * hi.
Proof.
  unfold N. clear nonempty. induction vs as [|v l IH].
  - simpl. lia.
  - assert (lo <= v <= hi) by (apply bounded; now left).
    assert (Z.of_nat (length l) * lo <= Zsum l <= Z.of_nat (length l) * hi)
      by (apply IH; intros; apply bounded; now right).
    cbn [Zsum fold_right length]. fold (Zsum l). lia.
Qed.

Lemma meanOf_between :
  exists m, meanOf (map Some vs) = Some m /\ lo <= m <= hi.
Proof.
  destruct (meanOf_bytes vs bounded_bytes nonempty) as [E _]. fold N in E.
  eexists. split; [exact E|].
  pose proof Zsum_between as Hs. assert (HN : 1 <= N) by exact nonempty.
  split.
  - apply Z.div_le_lower_bound; nia.
  - assert ((2 * Zsum vs + N) / (2 * N) < hi + 1); [|lia].
    apply Z.div_lt_upper_bound; nia.
Qed.

Lemma minOf_between :
  exists m, minOf (map Some vs) = Some m /\ lo <= m <= hi /\ In m vs.
Proof.
  unfold minOf. rewrite fold_min_value. eexists. split; [reflexivity|].
  destruct (fold_Zmin_le vs 255) as [Ha Hv].
  destruct vs as [|v l] eqn:E; [simpl in nonempty; lia|]. rewrite <- E in *.
  assert (Hin : In v vs) by (rewrite E; now left).
  pose proof (Hv v Hin). pose proof (bounded v Hin).
  assert (Hlo : lo <= fold_left Z.min vs 255).
  { destruct (fold_Zmin_in vs 255) as [-> | Hm]; [lia|]. apply bounded in Hm. lia. }
  split; [lia|].
  destruct (fold_Zmin_in vs 255) as [E255 | Hm]; auto.
  replace (fold_left Z.min vs 255) with v by lia. exact Hin.
Qed.

Lemma maxOf_between :
  exists m, maxOf (map Some vs) = Some m /\ lo <= m <= hi /\ In m vs.
Proof.
  unfold maxOf. rewrite fold_max_value. eexists. split; [reflexivity|].
  destruct (fold_Zmax_ge vs 0) as [Ha Hv].
  destruct vs as [|v l] eqn:E; [simpl in nonempty; lia|]. rewrite <- E in *.
  assert (Hin : In v vs) by (rewrite E; now left).
  pose proof (Hv v Hin). pose proof (bounded v Hin).
  assert (Hhi : fold_left Z.max vs 0 <= hi).
  { destruct (fold_Zmax_in vs 0) as [-> | Hm]; [lia|]. apply bounded in Hm. lia. }
  split; [lia|].
  destruct (fold_Zmax_in vs 0) as [E0 | Hm]; auto.
  replace (fold_left Z.max vs 0) with v by lia. exact Hin.
Qed.

Lemma midpointOf_between :
  exists m, midpointOf (map Some vs) = Some m /\ lo <= m <= hi.
Proof.
  destruct minOf_between as [a [Ea [Ha _]]].
  destruct maxOf_between as [c [Ec [Hc _]]].
  unfold midpointOf. rewrite Ea, Ec. cbn [Num.add].
  rewrite round_div_Some by lia. eexists. split; [reflexivity|]. split.
  - apply Z.div_le_lower_bound; lia.
  - assert ((2 * (a + c) + 2) / (2 * 2) < hi + 1); [|lia].
    apply Z.div_lt_upper_bound; lia.
Qed.

Lemma harmonicOf_between :
  exists m, harmonicOf (map Some vs) = Some m /\ lo <= m <= hi.
Proof.
  destruct (harmonicOf_bytes vs bounded_bytes nonempty) as [E _]. fold N in E.
  eexists. split; [exact E|].
  pose proof (harmonic_sum_pos vs bounded_bytes nonempty) as HT.
  set (T := Rsum (map (fun v => 1 / (IZR v + Num.epsilon))%R vs)) in *.
  pose proof epsilon_pos as He. pose proof epsilon_small as He'.
  assert (HN : (1 <= IZR N)%R) by (apply IZR_le; exact nonempty).
  assert (Hlo : (0 <= IZR lo)%R) by (apply IZR_le; lia).
  assert (Hlh : (IZR lo <= IZR hi)%R) by (apply IZR_le; apply bounds_ordered).
  destruct (Rsum_bounds (fun v => 1 / (IZR v + Num.epsilon))%R
              (/ (IZR hi + Num.epsilon))%R (/ (IZR lo + Num.epsilon))%R vs)
    as [HTlo HThi].
  { intros v Hv. apply bounded in Hv. destruct Hv as [H0 H1].
    apply IZR_le in H0, H1. unfold Rdiv. rewrite Rmult_1_l. split.
    - apply Rinv_le_contravar; lra.
    - apply Rinv_le_contravar; lra. }
  fold T in HTlo, HThi. fold N in HTlo, HThi.
  apply round_between. split.
  - apply Rle_trans with (r2 := (IZR lo + Num.epsilon)%R); [lra|].
    apply Rmult_le_reg_r with (r := T); auto.
    replace (IZR N / T * T)%R with (IZR N) by (field; lra).
    apply Rmult_le_compat_l with (r := (IZR lo + Num.epsilon)%R) in HThi; [|lra].
    replace ((IZR lo + Num.epsilon) * (IZR N * / (IZR lo + Num.epsilon)))%R
      with (IZR N) in HThi by (field; lra).
    lra.
  - apply Rle_lt_trans with (r2 := (IZR hi + Num.epsilon)%R); [|lra].
    apply Rmult_le_reg_r with (r := T); auto.
    replace (IZR N / T * T)%R with (IZR N) by (field; lra).
    apply Rmult_le_compat_l with (r := (IZR hi + Num.epsilon)%R) in HTlo; [|lra].
    replace ((IZR hi + Num.epsilon) * (IZR N * / (IZR hi + Num.epsilon)))%R
      with (IZR N) in HTlo by (field; lra).
    lra.
Qed.

Lemma geometricOf_between :
  exists m, geometricOf (map Some vs) = Some m /\ lo <= m <= hi.
Proof.
  destruct (geometricOf_bytes vs bounded_bytes nonempty) as [E _]. fold N in E.
  eexists. split; [exact E|].
  set (L := Rsum (map (fun v => ln (IZR v + Num.epsilon))%R vs)) in *.
  pose proof epsilon_pos as He. pose proof epsilon_small as He'.
  assert (HN : (1 <= IZR N)%R) by (apply IZR_le; exact nonempty).
  assert (Hlo : (0 <= IZR lo)%R) by (apply IZR_le; lia).
  assert (Hlh : (IZR lo <= IZR hi)%R) by (apply IZR_le; apply bounds_ordered).
  destruct (Rsum_bounds (fun v => ln (IZR v + Num.epsilon))%R
              (ln (IZR lo + Num.epsilon)) (ln (IZR hi + Num.epsilon)) vs)
    as [HLlo HLhi].
  { intros v Hv. apply bounded in Hv. destruct Hv as [H0 H1].
    apply IZR_le in H0, H1. split; apply ln_mono; lra. }
  fold L in HLlo, HLhi. fold N in HLlo, HLhi.
  assert (Hq : (ln (IZR lo + Num.epsilon) <= L / IZR N <= ln (IZR hi + Num.epsilon))%R).
  { split.
    - apply Rmult_le_reg_l with (r := IZR N); [lra|].
      replace (IZR N * (L / IZR N))%R with L by (field; lra). exact HLlo.
    - apply Rmult_le_reg_l with (r := IZR N); [lra|].
      replace (IZR N * (L / IZR N))%R with L by (field; lra). exact HLhi. }
  destruct Hq as [Hq1 Hq2]. apply exp_mono in Hq1, Hq2.
  rewrite exp_ln in Hq1, Hq2 by lra.
  apply round_between. lra.
Qed.

Lemma medianOf_between (k : Z) :
  k * k = N -> N < 65536 ->
  exists m, medianOf k (map Some vs) = Some m /\ lo <= m <= hi.
Proof.
  intros Hk Hsmall. unfold medianOf. eexists. split; [reflexivity|].
  assert (HN : 1 <= N) by exact nonempty.
  assert (Hm : 1 <= k * k / 2 + 1 <= Z.of_nat (length vs)).
  { fold N. rewrite Hk.
    pose proof (Z.div_pos N 2 ltac:(lia) ltac:(lia)).
    assert (N / 2 < N) by (apply Z.div_lt; lia). lia. }
  destruct (findMedian_spec vs (k * k / 2 + 1) bounded_bytes Hsmall Hm)
    as [Hr [H1 H2]].
  set (res := MedianFilter.findMedian (k * k / 2 + 1) (histogramOf (map Some vs))) in *.
  assert (Hzero : forall t, t < lo -> countLe t vs = 0).
  { intros t Ht. clear - bounded Ht.
    induction vs as [|v l IH]; [reflexivity|].
    assert (lo <= v <= hi) by (apply bounded; now left).
    rewrite countLe_cons, IH by (intros; apply bounded; now right).
    destruct (Z.leb_spec v t); lia. }
  assert (Hfull : forall t, hi <= t -> countLe t vs = N).
  { intros t Ht. unfold N. clear - bounded Ht.
    induction vs as [|v l IH]; [reflexivity|].
    assert (lo <= v <= hi) by (apply bounded; now left).
    rewrite countLe_cons, IH by (intros; apply bounded; now right).
    destruct (Z.leb_spec v t); cbn [length]; lia. }
  split.
  - destruct (Z_lt_le_dec res lo) as [Hlt|]; [|lia].
    rewrite (Hzero res Hlt) in H2. lia.
  - destruct (Z_lt_le_dec hi res) as [Hlt|]; [|lia].
    rewrite (Hfull (res - 1)) in H1 by lia. lia.
Qed.

End BoundedSamples.

Lemma within_values (lo hi : Z) (l : list (option Z)) :
  samples_within lo hi l ->
  exists vs : list Z, l = map Some vs /\ forall v, In v vs -> lo <= v <= hi.
Proof.
  induction l as [|o l IH]; intros H.
  - exists []. split; [reflexivity|intros v []].
  - destruct (H o (or_introl eq_refl)) as [v [-> Hv]].
    destruct IH as [vs [-> Hvs]]; [intros o Ho; apply H; now right|].
    exists (v :: vs). split; [reflexivity|]. intros v' [<-|Hin]; auto.
Qed.

Lemma odd_kernel_count (k : Z) (data : list Z) (c : Channel) (x y w h : Z) :
  Z.odd k = true -> 1 <= k ->
  Z.of_nat (length (samples data c (neighborhood (radius (kernelOf k)) x y w h)))
  = k * k.
Proof.
  intros Ho Hk. rewrite samples_length. cbn [radius kernelOf].
  destruct (odd_radius k Ho Hk) as [Hr0 Hr1].
  rewrite neighborhood_length by lia. now rewrite Hr1.
Qed.

Lemma within_range_core
    (k : Z) (data : list Z) (w h x y : Z) (c : Channel) (lo hi : Z) :
  Z.odd k = true -> 1 <= k -> 0 <= lo -> hi <= 255 ->
  samples_within lo hi (samples data c (neighborhood (radius (kernelOf k)) x y w h)) ->
  inRange lo hi (chan c (MeanFilter.calculateMeanValues (kernelOf k) data x y w h)) /\
  inRange lo hi (chan c (MinFilter.calculateMinValues (kernelOf k) data x y w h)) /\
  inRange lo hi (chan c (MaxFilter.calculateMaxValues (kernelOf k) data x y w h)) /\
  inRange lo hi (chan c (MidpointFilter.calculateMidpointValues (kernelOf k) data x y w h)) /\
  inRange lo hi (chan c (GeometricMeanFilter.calculateGeometricMean (kernelOf k) data x y w h)) /\
  inRange lo hi (chan c (HarmonicMeanFilter.calculateHarmonicMean (kernelOf k) data x y w h)) /\
  (k * k < 65536 ->
   inRange lo hi (chan c (MedianFilter.calculateMedianValues (kernelOf k) data x y w h))).
Proof.
  intros Ho Hk Hlo Hhi Hs.
  pose proof (odd_kernel_count k data c x y w h Ho Hk) as Hlen.
  destruct (within_values lo hi _ Hs) as [vs [E Hvs]].
  rewrite E, length_map in Hlen.
  assert (HN : 1 <= Z.of_nat (length vs)) by nia.
  rewrite mean_decompose, min_decompose, max_decompose, midpoint_decompose,
    geometric_decompose, harmonic_decompose, median_decompose, E.
  cbn [kernelSize kernelOf].
  split; [exact (meanOf_between vs lo hi Hvs Hlo Hhi HN)|].
  split. { destruct (minOf_between vs lo hi Hvs Hhi HN) as [m [Em [Hm _]]].
           exists m. auto. }
  split. { destruct (maxOf_between vs lo hi Hvs Hlo HN) as [m [Em [Hm _]]].
           exists m. auto. }
  split; [exact (midpointOf_between vs lo hi Hvs Hlo Hhi HN)|].
  split; [exact (geometricOf_between vs lo hi Hvs Hlo Hhi HN)|].
  split; [exact (harmonicOf_between vs lo hi Hvs Hlo Hhi HN)|].
  intros Hsmall. apply (medianOf_between vs lo hi Hvs Hlo Hhi HN k); lia.
Qed.

(** X1.  When every sample of a pixel's neighbourhood lies in [lo, hi], so
    does the value that ArithmeticMean, Min, Max, Midpoint, GeometricMean and
    HarmonicMean compute for the pixel, and so does the Median while its
    counters cannot wrap (size * size < 2^16). *)
Theorem aggregators_within_sample_range
    (k : Z) (data : list Z) (w h x y : Z) (c : Channel) (lo hi : Z) :
  Z.odd k = true -> 1 <= k -> 0 <= lo -> hi <= 255 ->
  samples_within lo hi (samples data c (neighborhood (radius (kernelOf k)) x y w h)) ->
  inRange lo hi (chan c (MeanFilter.calculateMeanValues (kernelOf k) data x y w h)) /\
  inRange lo hi (chan c (MinFilter.calculateMinValues (kernelOf k) data x y w h)) /\
  inRange lo hi (chan c (MaxFilter.calculateMaxValues (kernelOf k) data x y w h)) /\
  inRange lo hi (chan c (MidpointFilter.calculateMidpointValues (kernelOf k) data x y w h)) /\
  inRange lo hi (chan c (GeometricMeanFilter.calculateGeometricMean (kernelOf k) data x y w h)) /\
  inRange lo hi (chan c (HarmonicMeanFilter.calculateHarmonicMean (kernelOf k) data x y w h)) /\
  (k * k < 65536 ->
   inRange lo hi (chan c (MedianFilter.calculateMedianValues (kernelOf k) data x y w h))).
Proof. exact (within_range_core k data w h x y c lo hi). Qed.

(** X2.  On a raster, the values of ArithmeticMean, Midpoint, GeometricMean
    and HarmonicMean at a pixel lie between the values of Min and Max at
    that pixel (and so does the Median for size * size < 2^16), and the
    values of Min and Max are samples of the neighbourhood. *)
Theorem means_between_min_and_max
    (k : Z) (data : list Z) (w h x y : Z) (c : Channel) :
  Z.odd k = true -> 1 <= k ->
  is_raster data w h = true -> in_image x y w h = true ->
  exists lo hi : Z,
    chan c (MinFilter.calculateMinValues (kernelOf k) data x y w h) = Some lo /\
    chan c (MaxFilter.calculateMaxValues (kernelOf k) data x y w h) = Some hi /\
    In (Some lo) (samples data c (neighborhood (radius (kernelOf k)) x y w h)) /\
    In (Some hi) (samples data c (neighborhood (radius (kernelOf k)) x y w h)) /\
    samples_within lo hi (samples data c (neighborhood (radius (kernelOf k)) x y w h)) /\
    inRange lo hi (chan c (MeanFilter.calculateMeanValues (kernelOf k) data x y w h)) /\
    inRange lo hi (chan c (MidpointFilter.calculateMidpointValues (kernelOf k) data x y w h)) /\
    inRange lo hi (chan c (GeometricMeanFilter.calculateGeometricMean (kernelOf k) data x y w h)) /\
    inRange lo hi (chan c (HarmonicMeanFilter.calculateHarmonicMean (kernelOf k) data x y w h)) /\
    (k * k < 65536 ->
     inRange lo hi (chan c (MedianFilter.calculateMedianValues (kernelOf k) data x y w h))).
Proof.
  intros Ho Hk Hr Hin.
  destruct (odd_kernel_samples k data w h x y c Ho Hk Hr Hin) as [vs [E [Hlen Hb]]].
  assert (HN : 1 <= Z.of_nat (length vs)) by nia.
  destruct (minOf_between vs 0 255 Hb ltac:(lia) HN) as [lo [Elo [Hlo Ilo]]].
  destruct (maxOf_between vs 0 255 Hb ltac:(lia) HN) as [hi [Ehi [Hhi Ihi]]].
  assert (Hvs : forall v, In v vs -> lo <= v <= hi).
  { intros v Hv. unfold minOf in Elo. unfold maxOf in Ehi.
    rewrite fold_min_value in Elo. rewrite fold_max_value in Ehi.
    injection Elo as <-. injection Ehi as <-.
    destruct (fold_Zmin_le vs 255) as [_ H1]. destruct (fold_Zmax_ge vs 0) as [_ H2].
    split; auto. }
  exists lo, hi.
  rewrite min_decompose, max_decompose, mean_decompose, midpoint_decompose,
    geometric_decompose, harmonic_decompose, median_decompose, E.
  cbn [kernelSize kernelOf].
  split; [exact Elo|]. split; [exact Ehi|].
  split; [now apply in_map|]. split; [now apply in_map|].
  split. { intros o Ho'. apply in_map_iff in Ho'. destruct Ho' as [v [<- Hv]].
           exists v. auto. }
  split; [exact (meanOf_between vs lo hi Hvs ltac:(lia) ltac:(lia) HN)|].
  split; [exact (midpointOf_between vs lo hi Hvs ltac:(lia) ltac:(lia) HN)|].
  split; [exact (geometricOf_between vs lo hi Hvs ltac:(lia) ltac:(lia) HN)|].
  split; [exact (harmonicOf_between vs lo hi Hvs ltac:(lia) ltac:(lia) HN)|].
  intros Hsmall. apply (medianOf_between vs lo hi Hvs ltac:(lia) ltac:(lia) HN k); lia.
Qed.

(** ** Whole rasters *)

Lemma applyFilter_raster (f : Filter) calc (img : ImageElement) (data : list Z) :
  calcOf f = Some calc -> pixels img = Some data ->
  applyFilter f img =
    Resolve {| width := naturalWidth img; height := naturalHeight img;
               content := Raster (processImageDataWith calc data data
                                    (naturalWidth img) (naturalHeight img)) |}.
Proof.
  intros Hc Hp.
  destruct f; cbn in Hc; try discriminate; injection Hc as <-; cbn [applyFilter];
    unfold MeanFilter.applyFilter, MedianFilter.applyFilter, MinFilter.applyFilter,
      MaxFilter.applyFilter, MidpointFilter.applyFilter,
      GeometricMeanFilter.applyFilter, HarmonicMeanFilter.applyFilter,
      ContraharmonicMeanFilter.applyFilter, getImageData;
    rewrite Hp; reflexivity.
Qed.

Lemma process_color calc data w h x y c v :
  is_raster data w h = true -> in_image x y w h = true ->
  chan c (calc data x y w h) = Some v -> 0 <= v <= 255 ->
  TypedArray.get (processImageDataWith calc data data w h)
                 ((y * w + x) * 4 + offset c) = Some v.
Proof.
  intros Hr Hin Hc Hv. apply in_image_spec in Hin. destruct Hin as [Hx Hy].
  apply is_raster_spec in Hr. destruct Hr as [Hl Hb].
  pose proof (offset_range c) as Ho.
  assert (Hj := pixel_offset_in_raster data w h x y (offset c) Hl Hx Hy ltac:(lia)).
  rewrite processImageDataWith_get by lia.
  rewrite pixelValue_chan, Hc. now rewrite ToUint8Clamp_byte.
Qed.

Lemma plain_calc_within (k : Z) (f : Filter) (data : list Z) (w h x y : Z)
    (c : Channel) (lo hi : Z) :
  Z.odd k = true -> 1 <= k -> 0 <= lo -> hi <= 255 ->
  In f (plainAggregators (kernelOf k)) ->
  k * k < 65536 \/ f <> MedianF (kernelOf k) ->
  samples_within lo hi (samples data c (neighborhood (radius (kernelOf k)) x y w h)) ->
  exists calc, calcOf f = Some calc /\ inRange lo hi (chan c (calc data x y w h)).
Proof.
  intros Ho Hk Hlo Hhi Hf Hmed Hs.
  destruct (within_range_core k data w h x y c lo hi Ho Hk Hlo Hhi Hs)
    as [H1 [H2 [H3 [H4 [H5 [H6 H7]]]]]].
  cbn in Hf.
  destruct Hf as [<-|[<-|[<-|[<-|[<-|[<-|[<-|[]]]]]]]];
    (eexists; split; [reflexivity|]); auto.
  apply H7. destruct Hmed as [Hm|Hm]; [exact Hm|congruence].
Qed.

Lemma uniform_samples (data : list Z) (w h : Z) (c : Channel) (v r cx cy : Z) :
  uniform_channel data w h c v -> 0 < w -> 0 < h ->
  samples_within v v (samples data c (neighborhood r cx cy w h)).
Proof.
  intros Hu Hw Hh o Ho. unfold samples, neighborhood in Ho.
  apply in_map_iff in Ho. destruct Ho as [p [<- Hp]].
  apply in_flat_map in Hp. destruct Hp as [dy [_ Hp]].
  apply in_map_iff in Hp. destruct Hp as [dx [<- _]].
  exists v. split; [|lia]. apply Hu. apply in_image_spec.
  pose proof (reflect_range (cy + dy) h Hh).
  pose proof (reflect_range (cx + dx) w Hw). lia.
Qed.

(** X3.  A raster whose channel [c] has one value [v] at every pixel keeps
    it under ArithmeticMean, Min, Max, Midpoint, GeometricMean and
    HarmonicMean of every odd kernel size, and under Median for
    size * size < 2^16. *)
Theorem uniform_channel_unchanged
    (k : Z) (f : Filter) (img : ImageElement) (data : list Z) (c : Channel) (v : Z) :
  Z.odd k = true -> 1 <= k ->
  In f (plainAggregators (kernelOf k)) ->
  k * k < 65536 \/ f <> MedianF (kernelOf k) ->
  pixels img = Some data ->
  is_raster data (naturalWidth img) (naturalHeight img) = true ->
  uniform_channel data (naturalWidth img) (naturalHeight img) c v ->
  exists out : list Z,
    applyFilter f img =
      Resolve {| width := naturalWidth img; height := naturalHeight img;
                 content := Raster out |} /\
    uniform_channel out (naturalWidth img) (naturalHeight img) c v.
Proof.
  intros Ho Hk Hf Hmed Hp Hr Hu.
  set (w := naturalWidth img) in *. set (h := naturalHeight img) in *.
  assert (Hcalc : exists calc, calcOf f = Some calc).
  { cbn in Hf. destruct Hf as [<-|[<-|[<-|[<-|[<-|[<-|[<-|[]]]]]]]];
      eexists; reflexivity. }
  destruct Hcalc as [calc Hcalc].
  eexists. split; [apply (applyFilter_raster f calc img data Hcalc Hp)|].
  fold w h. intros x y Hin.
  pose proof Hin as Hin'. apply in_image_spec in Hin'.
  assert (Hv : 0 <= v <= 255).
  { pose proof (Hu x y Hin) as Hg. apply is_raster_spec in Hr. destruct Hr as [Hl Hb].
    destruct (get_in_range data ((y * w + x) * 4 + offset c)) as [v' [E Hv']].
    - eapply get_Some_range; eauto.
    - rewrite Hg in E. injection E as <-. auto. }
  destruct (plain_calc_within k f data w h x y c v v Ho Hk ltac:(lia) ltac:(lia) Hf Hmed)
    as [calc' [Hc' [m [Em Hm]]]].
  { apply uniform_samples; auto; lia. }
  rewrite Hcalc in Hc'. injection Hc' as <-.
  apply process_color; auto. rewrite Em. f_equal. lia.
Qed.

(** X4.  With kernel size 1 (radius 0) Min, Max, Midpoint, Median,
    GeometricMean and HarmonicMean, like ArithmeticMean, leave the R, G and B
    values of every pixel of every raster as they are. *)
Theorem size_1_identity
    (f : Filter) (img : ImageElement) (data : list Z) :
  In f (plainAggregators (kernelOf 1)) ->
  pixels img = Some data ->
  is_raster data (naturalWidth img) (naturalHeight img) = true ->
  exists out : list Z,
    applyFilter f img =
      Resolve {| width := naturalWidth img; height := naturalHeight img;
                 content := Raster out |} /\
    forall (x y : Z) (c : Channel),
      in_image x y (naturalWidth img) (naturalHeight img) = true ->
      TypedArray.get out ((y * naturalWidth img + x) * 4 + offset c)
      = TypedArray.get data ((y * naturalWidth img + x) * 4 + offset c).
Proof.
  intros Hf Hp Hr.
  set (w := naturalWidth img) in *. set (h := naturalHeight img) in *.
  assert (Hcalc : exists calc, calcOf f = Some calc).
  { cbn in Hf. destruct Hf as [<-|[<-|[<-|[<-|[<-|[<-|[<-|[]]]]]]]];
      eexists; reflexivity. }
  destruct Hcalc as [calc Hcalc].
  eexists. split; [apply (applyFilter_raster f calc img data Hcalc Hp)|].
  fold w h. intros x y c Hin.
  pose proof Hin as Hin'. apply in_image_spec in Hin'. destruct Hin' as [Hx Hy].
  pose proof Hr as Hr'. apply is_raster_spec in Hr'. destruct Hr' as [Hl Hb].
  pose proof (offset_range c) as Hoff.
  assert (Hj := pixel_offset_in_raster data w h x y (offset c) Hl Hx Hy ltac:(lia)).
  destruct (get_in_range data _ Hj) as [v [E Hv]]. apply Hb in Hv.
  destruct (plain_calc_within 1 f data w h x y c v v eq_refl ltac:(lia)
              ltac:(lia) ltac:(lia) Hf ltac:(left; lia))
    as [calc' [Hc' [m [Em Hm]]]].
  { change (radius (kernelOf 1)) with 0. rewrite neighborhood_radius_0 by lia.
    intros o [<-|[]]. exists v. split; [exact E|lia]. }
  rewrite Hcalc in Hc'. injection Hc' as <-.
  rewrite E. apply process_color; auto. rewrite Em. f_equal. lia.
Qed.

(** ** The sampler *)

Lemma Zrange_0_in (r : Z) : 0 <= r -> In 0 (Zrange (- r) r).
Proof. intros H. apply Zrange_In. lia. Qed.

Lemma centre_in_neighborhood (r x y w h : Z) :
  0 <= r -> 0 <= x < w -> 0 <= y < h ->
  In ((y * w + x) * 4) (neighborhood r x y w h).
Proof.
  intros Hr Hx Hy. unfold neighborhood. apply in_flat_map.
  exists 0. split; [now apply Zrange_0_in|].
  apply in_map_iff. exists 0. split; [|now apply Zrange_0_in].
  rewrite !Z.add_0_r. now rewrite !reflect_inside by lia.
Qed.

(** X5.  Min never raises and Max never lowers a pixel: at every pixel of a
    raster the value of Min is at most the input value, which is at most the
    value of Max. *)
Theorem min_le_pixel_le_max
    (k : Z) (data : list Z) (w h x y : Z) (c : Channel) :
  Z.odd k = true -> 1 <= k ->
  is_raster data w h = true -> in_image x y w h = true ->
  exists lo p hi : Z,
    chan c (MinFilter.calculateMinValues (kernelOf k) data x y w h) = Some lo /\
    TypedArray.get data ((y * w + x) * 4 + offset c) = Some p /\
    chan c (MaxFilter.calculateMaxValues (kernelOf k) data x y w h) = Some hi /\
    lo <= p <= hi.
Proof.
  intros Ho Hk Hr Hin.
  destruct (odd_kernel_samples k data w h x y c Ho Hk Hr Hin) as [vs [E [Hlen Hb]]].
  apply in_image_spec in Hin. destruct Hin as [Hx Hy].
  destruct (odd_radius k Ho Hk) as [Hr0 _].
  assert (Hc : In (TypedArray.get data ((y * w + x) * 4 + offset c)) (map Some vs)).
  { rewrite <- E. unfold samples.
    apply (in_map (fun i => TypedArray.get data (i + offset c))).
    now apply centre_in_neighborhood. }
  apply in_map_iff in Hc. destruct Hc as [p [Ep Hp]].
  rewrite min_decompose, max_decompose, E. unfold minOf, maxOf.
  rewrite fold_min_value, fold_max_value.
  destruct (fold_Zmin_le vs 255) as [_ H1]. destruct (fold_Zmax_ge vs 0) as [_ H2].
  eexists. exists p. eexists. repeat split; eauto.
Qed.




(** ** The median of a majority *)

Lemma countLe_mono (t t' : Z) (l : list Z) : t <= t' -> countLe t l <= countLe t' l.
Proof.
  intros H. induction l as [|v l IH]; [reflexivity|].
  rewrite !countLe_cons.
  destruct (Z.leb_spec v t), (Z.leb_spec v t'); lia.
Qed.

Lemma countEq_le_countLe (t : Z) (l : list Z) :
  0 <= countEq t l <= countLe t l.
Proof.
  induction l as [|v l IH]; [unfold countEq, countLe; simpl; lia|].
  rewrite countLe_cons, countEq_cons.
  destruct (Z.leb_spec v t), (Z.eqb_spec v t); lia.
Qed.

Lemma countLe_excludes (t v : Z) (l : list Z) :
  t < v -> countLe t l + countEq v l <= Z.of_nat (length l).
Proof.
  intros H. induction l as [|u l IH]; [unfold countEq, countLe; simpl; lia|].
  rewrite countLe_cons, countEq_cons. cbn [length].
  destruct (Z.leb_spec u t), (Z.eqb_spec u v); lia.
Qed.

(** X6.  When more than half of the samples of a neighbourhood have one
    value, the Median (size * size < 2^16) returns that value: isolated
    salt or pepper pixels are suppressed. *)
Theorem median_returns_majority
    (k : Z) (data : list Z) (w h x y : Z) (c : Channel) (v : Z) :
  Z.odd k = true -> 1 <= k -> k * k < 65536 ->
  is_raster data w h = true -> in_image x y w h = true ->
  k * k < 2 * countEq v (defined (samples data c
                                    (neighborhood (radius (kernelOf k)) x y w h))) ->
  chan c (MedianFilter.calculateMedianValues (kernelOf k) data x y w h) = Some v.
Proof.
  intros Ho Hk Hsmall Hr Hin Hmaj.
  destruct (odd_kernel_samples k data w h x y c Ho Hk Hr Hin) as [vs [E [Hlen Hb]]].
  rewrite E in Hmaj.
  assert (Ed : defined (map Some vs) = vs).
  { clear. induction vs as [|u l IH]; simpl; auto. now rewrite IH. }
  rewrite Ed in Hmaj.
  rewrite median_decompose, E. cbn [kernelSize kernelOf]. unfold medianOf. f_equal.
  assert (Hdiv : k * k = 2 * (k * k / 2) + 1).
  { assert (Hodd : Z.odd (k * k) = true) by (rewrite Z.odd_mul, Ho; reflexivity).
    apply odd_mod2 in Hodd. pose proof (Z.div_mod (k * k) 2 ltac:(lia)). lia. }
  assert (Hm : 1 <= k * k / 2 + 1 <= Z.of_nat (length vs)).
  { rewrite Hlen. pose proof (Z.div_pos (k * k) 2 ltac:(nia) ltac:(lia)). lia. }
  destruct (findMedian_spec vs (k * k / 2 + 1) Hb ltac:(lia) Hm) as [_ [H1 H2]].
  set (res := MedianFilter.findMedian (k * k / 2 + 1) (histogramOf (map Some vs))) in *.
  destruct (Z.lt_trichotomy res v) as [Hlt|[Heq|Hgt]]; auto; exfalso.
  - pose proof (countLe_excludes res v vs Hlt). lia.
  - pose proof (countLe_mono v (res - 1) vs ltac:(lia)).
    pose proof (countEq_le_countLe v vs). lia.
Qed.

(** ** Negative kernel sizes *)

Lemma neighborhood_negative (r cx cy w h : Z) :
  r < 0 -> neighborhood r cx cy w h = [].
Proof.
  intros H. unfold neighborhood, Zrange.
  replace (Z.to_nat (r - - r + 1)) with O by lia. reflexivity.
Qed.

Lemma negative_radius (k : Z) : k < 0 -> radius (kernelOf k) < 0.
Proof. intros H. cbn [radius kernelOf]. apply Z.div_lt_upper_bound; lia. Qed.

Lemma findMedianLoop_empty (hist : list Z) (m : Z) (bins : list Z) :
  1 <= m ->
  (forall i, In i bins -> TypedArray.get hist i = Some 0) ->
  MedianFilter.findMedianLoop hist m bins (Some 0) = 255.
Proof.
  intros Hm. induction bins as [|i bins IH]; intros H; simpl; auto.
  rewrite H by now left. cbn [Num.add Z.add]. replace (0 >=? m) with false by lia.
  apply IH. intros; apply H; now right.
Qed.

Lemma medianOf_nil (k : Z) : medianOf k [] = Some 255.
Proof.
  unfold medianOf, MedianFilter.findMedian. f_equal.
  apply findMedianLoop_empty.
  - pose proof (Z.div_pos (k * k) 2 ltac:(nia) ltac:(lia)). lia.
  - intros i Hi. apply Zrange_In in Hi.
    unfold histogramOf, MedianFilter.createHistogram. cbn [fold_left].
    apply get_alloc. simpl. lia.
Qed.

Lemma geometricOf_nil : geometricOf [] = None.
Proof.
  unfold geometricOf, Num.rdiv. cbn [fold_left length Z.of_nat].
  destruct (Req_dec_T 0 0); [reflexivity|contradiction].
Qed.

Lemma harmonicOf_nil : harmonicOf [] = None.
Proof.
  unfold harmonicOf, Num.rdiv. cbn [fold_left length Z.of_nat].
  destruct (Req_dec_T 0 0); [reflexivity|contradiction].
Qed.

Lemma contraharmonicOf_nil (q : R) : contraharmonicOf q [] = Some 0.
Proof.
  unfold contraharmonicOf, Num.rdiv. cbn [fold_left Num.radd].
  pose proof epsilon_pos as He.
  destruct (Req_dec_T (0 + Num.epsilon) 0); [lra|].
  cbn [Num.round Num.clamp255Z]. f_equal.
  rewrite (Zfloor_eq 0); [reflexivity|].
  unfold Rdiv. rewrite Rmult_0_l. simpl. lra.
Qed.

(** X9.  A negative odd kernel size passes the parity check of the eight
    neighbourhood filters; the radius is then negative, no sample is read,
    and every pixel gets one constant colour whatever the raster:
    ArithmeticMean, GeometricMean and HarmonicMean compute NaN (stored as
    0), Max and ContraharmonicMean 0, Min and Median 255, Midpoint 128. *)
Theorem negative_size_constant_output
    (k : Z) (q : R) (data : list Z) (w h x y : Z) (c : Channel) :
  Z.odd k = true -> k < 0 ->
  (MeanFilter.constructor k = inr (kernelOf k) /\
   chan c (MeanFilter.calculateMeanValues (kernelOf k) data x y w h) = None) /\
  (GeometricMeanFilter.constructor k = inr (kernelOf k) /\
   chan c (GeometricMeanFilter.calculateGeometricMean (kernelOf k) data x y w h) = None) /\
  (HarmonicMeanFilter.constructor k = inr (kernelOf k) /\
   chan c (HarmonicMeanFilter.calculateHarmonicMean (kernelOf k) data x y w h) = None) /\
  (MaxFilter.constructor k = inr (kernelOf k) /\
   chan c (MaxFilter.calculateMaxValues (kernelOf k) data x y w h) = Some 0) /\
  (ContraharmonicMeanFilter.constructor k q
     = inr {| ContraharmonicMeanFilter.kernel := kernelOf k;
              ContraharmonicMeanFilter.Q := q |} /\
   chan c (ContraharmonicMeanFilter.calculateContraharmonicMean
             {| ContraharmonicMeanFilter.kernel := kernelOf k;
                ContraharmonicMeanFilter.Q := q |} data x y w h) = Some 0) /\
  (MinFilter.constructor k = inr (kernelOf k) /\
   chan c (MinFilter.calculateMinValues (kernelOf k) data x y w h) = Some 255) /\
  (MedianFilter.constructor k = inr (kernelOf k) /\
   chan c (MedianFilter.calculateMedianValues (kernelOf k) data x y w h) = Some 255) /\
  (MidpointFilter.constructor k = inr (kernelOf k) /\
   chan c (MidpointFilter.calculateMidpointValues (kernelOf k) data x y w h) = Some 128) /\
  TypedArray.ToUint8Clamp None = 0.
Proof.
  intros Ho Hk.
  destruct (odd_constructors k Ho) as [C1 [C2 [C3 [C4 [C5 [C6 [C7 C8]]]]]]].
  pose proof (negative_radius k Hk) as Hr.
  rewrite mean_decompose, geometric_decompose, harmonic_decompose, max_decompose,
    contraharmonic_decompose, min_decompose, median_decompose, midpoint_decompose.
  cbn [ContraharmonicMeanFilter.kernel ContraharmonicMeanFilter.Q].
  rewrite (neighborhood_negative _ x y w h Hr).
  change (samples data c []) with (@nil (option Z)).
  rewrite geometricOf_nil, harmonicOf_nil, contraharmonicOf_nil, medianOf_nil.
  repeat split; auto.
Qed.

(** ** Construction of the Gaussian filter *)

(** X10.  A negative odd kernel size passes the parity check of the Gaussian
    constructor too, but the allocation of the kernel then fails with a
    range error; so does a construction without a size when
    [ceil(6 sigma)] is negative (and within 32 bits). *)
Theorem gaussian_negative_size_range_error (sigma : R) (kernelSize : option Z) :
  match kernelSize with
  | Some k => Z.odd k = true /\ k < 0
  | None => - 2 ^ 31 <= Zceil (6 * sigma) <= -1
  end ->
  GaussianFilter.constructor sigma kernelSize = inl RangeError.
Proof.
  unfold GaussianFilter.constructor, GaussianFilter.createGaussianKernel.
  destruct kernelSize as [k|].
  - intros [Ho Hk]. rewrite (odd_rem k Ho).
    now replace (k <? 0) with true by lia.
  - intros Hc. rewrite ToInt32_small by lia.
    pose proof (lor_1 (Zceil (6 * sigma))) as E.
    pose proof (lor_1_odd (Zceil (6 * sigma))) as Hodd.
    pose proof (Z.mod_pos_bound (Zceil (6 * sigma)) 2 ltac:(lia)).
    assert (Z.lor (Zceil (6 * sigma)) 1 <> 0) by (intros E0; rewrite E0 in Hodd; discriminate).
    now replace (_ <? 0) with true by lia.
Qed.

Lemma Zrange_0_length (k : Z) : 0 <= k -> Z.of_nat (length (Zrange 0 (k - 1))) = k.
Proof. intros H. rewrite Zrange_length. lia. Qed.

(** X11.  Every Gaussian filter that a construction returns, with or without
    an explicit size, has an odd kernel size of at least 1, the radius
    [(size - 1) / 2], the given sigma, and a kernel of exactly [size]
    entries. *)
Theorem gaussian_constructor_invariants
    (sigma : R) (kernelSize : option Z) (f : GaussianFilter.t) :
  GaussianFilter.constructor sigma kernelSize = inr f ->
  Z.odd (GaussianFilter.kernelSize f) = true /\
  1 <= GaussianFilter.kernelSize f /\
  2 * GaussianFilter.radius f + 1 = GaussianFilter.kernelSize f /\
  GaussianFilter.sigma f = sigma /\
  Z.of_nat (length (GaussianFilter.kernel f)) = GaussianFilter.kernelSize f /\
  match kernelSize with
  | Some k => GaussianFilter.kernelSize f = k
  | None => True
  end.
Proof.
  intros H.
  assert (Hsize : exists k, Z.odd k = true /\
            match kernelSize with Some k' => k' = k | None => True end /\
            match GaussianFilter.createGaussianKernel sigma k (k / 2) with
            | inl e => inl e
            | inr kernel =>
                inr {| GaussianFilter.sigma := sigma;
                       GaussianFilter.kernelSize := k;
                       GaussianFilter.radius := k / 2;
                       GaussianFilter.kernel := kernel |}
            end = inr f).
  { unfold GaussianFilter.constructor in H. destruct kernelSize as [k|].
    - destruct (Z.rem k 2 =? 0) eqn:Hrem; [discriminate|].
      exists k. split; [|split; [reflexivity|exact H]].
      destruct (Z.odd k) eqn:Ho; auto.
      assert (He : Z.even k = true) by (rewrite <- Z.negb_odd, Ho; reflexivity).
      apply even_rem in He. congruence.
    - eexists. split; [apply lor_1_odd|]. split; [exact I|exact H]. }
  destruct Hsize as [k [Ho [Hks E]]].
  unfold GaussianFilter.createGaussianKernel in E.
  destruct (Z.ltb_spec k 0); [discriminate|].
  injection E as <-. cbn.
  assert (Hk1 : 1 <= k).
  { destruct (Z.eq_dec k 0) as [->|]; [discriminate|lia]. }
  destruct (odd_radius k Ho Hk1) as [_ Hr].
  rewrite !length_map, Zrange_0_length by lia.
  repeat split; auto. destruct kernelSize; auto.
Qed.

(** ** The kernel of the Gaussian filter *)

Lemma constructor_shape (sigma : R) (kernelSize : option Z) (f : GaussianFilter.t) :
  GaussianFilter.constructor sigma kernelSize = inr f ->
  exists k : Z,
    Z.odd k = true /\ 1 <= k /\
    match kernelSize with Some k' => k' = k | None => True end /\
    GaussianFilter.kernelSize f = k /\
    GaussianFilter.radius f = k / 2 /\
    GaussianFilter.kernel f =
      map (fun value =>
             Num.rdiv value
               (fold_left Num.radd
                  (map (fun i => GaussianFilter.gaussian ((i - k / 2) * (i - k / 2))
                                   (2 * sigma * sigma))
                       (Zrange 0 (k - 1))) (Some 0%R)))
          (map (fun i => GaussianFilter.gaussian ((i - k / 2) * (i - k / 2))
                           (2 * sigma * sigma))
               (Zrange 0 (k - 1))).
Proof.
  intros H.
  assert (Hsize : exists k, Z.odd k = true /\
            match kernelSize with Some k' => k' = k | None => True end /\
            match GaussianFilter.createGaussianKernel sigma k (k / 2) with
            | inl e => inl e
            | inr kernel =>
                inr {| GaussianFilter.sigma := sigma;
                       GaussianFilter.kernelSize := k;
                       GaussianFilter.radius := k / 2;
                       GaussianFilter.kernel := kernel |}
            end = inr f).
  { unfold GaussianFilter.constructor in H. destruct kernelSize as [k|].
    - destruct (Z.rem k 2 =? 0) eqn:Hrem; [discriminate|].
      exists k. split; [|split; [reflexivity|exact H]].
      destruct (Z.odd k) eqn:Ho; auto.
      assert (He : Z.even k = true) by (rewrite <- Z.negb_odd, Ho; reflexivity).
      apply even_rem in He. congruence.
    - eexists. split; [apply lor_1_odd|split; [exact I|exact H]]. }
  destruct Hsize as [k [Ho [Hks E]]].
  unfold GaussianFilter.createGaussianKernel in E.
  destruct (Z.ltb_spec k 0); [discriminate|].
  injection E as <-. cbn.
  exists k. repeat split; auto.
  destruct (Z.eq_dec k 0) as [->|]; [discriminate|lia].
Qed.





(** ** The convolution passes of the Gaussian filter *)

Lemma chan_fold_zip_at {A : Type} (F : Z -> A -> option Z -> A) (idx : Z -> Z)
    (data : list Z) (c : Channel) (l : list Z) (s : RGB A) :
  chan c (fold_left (fun s' i => rgb_zip (F i) s' (TypedArray.pixelAt data (idx i))) l s)
  = fold_left (fun a i => F i a (TypedArray.get data (idx i + offset c))) l (chan c s).
Proof.
  revert s. induction l as [|i l IH]; intros s; simpl; auto.
  rewrite IH. f_equal. destruct c; simpl; auto. now rewrite Z.add_0_r.
Qed.


Lemma convolveVertical_chan (this : GaussianFilter.t) (data : list Z)
    (x y w h : Z) (c : Channel) :
  chan c (GaussianFilter.convolveVertical this data x y w h)
  = Num.round (Num.clamp255
      (weightedSum (GaussianFilter.kernelAt this)
         (fun i => TypedArray.get data
                     ((clampCoord (y + (i - GaussianFilter.radius this)) h * w + x) * 4
                      + offset c))
         (Zrange 0 (GaussianFilter.kernelSize this - 1)))).
Proof.
  unfold GaussianFilter.convolveVertical. cbv zeta. rewrite chan_map.
  unfold for_upto, for_incl, weightedSum, clampCoord. do 2 f_equal.
  pose proof (chan_fold_zip_at
    (fun i s d => Num.radd s (Num.rmul (Num.ofZ d) (GaussianFilter.kernelAt this i)))
    (fun i => (Z.max 0 (Z.min (h - 1) (y + (i - GaussianFilter.radius this))) * w + x) * 4)
    data c (Zrange 0 (GaussianFilter.kernelSize this - 1))
    (mkRGB (Some 0%R) (Some 0%R) (Some 0%R))) as E.
  cbv beta in E. rewrite E. now rewrite chan_const.
Qed.





Lemma gaussian_raster (f : GaussianFilter.t) (img : ImageElement) (data : list Z) :
  pixels img = Some data ->
  GaussianFilter.applyFilter f img =
    Resolve {| width := naturalWidth img; height := naturalHeight img;
               content := Raster
                 (for_upto (Z.of_nat (length data))
                    (fun i d => TypedArray.set d i
                       (TypedArray.get
                          (GaussianFilter.applyVerticalConvolution f
                             (GaussianFilter.applyHorizontalConvolution f data
                                (naturalWidth img) (naturalHeight img))
                             (naturalWidth img) (naturalHeight img)) i))
                    data) |}.
Proof.
  intros Hp. unfold GaussianFilter.applyFilter, getImageData. now rewrite Hp.
Qed.






(** ** The contraharmonic mean of a nonnegative order *)








(** ** The Gaussian filter of sigma zero *)

Lemma fold_radd_from_None (l : list (option R)) : fold_left Num.radd l None = None.
Proof. induction l as [|o l IH]; simpl; auto. Qed.

Lemma fold_radd_None (l : list (option R)) (a : option R) :
  In None l -> fold_left Num.radd l a = None.
Proof.
  revert a. induction l as [|o l IH]; intros a H; [destruct H|]. simpl.
  destruct H as [->|H]; [|now apply IH].
  replace (Num.radd a None) with (@None R) by now destruct a.
  apply fold_radd_from_None.
Qed.

Lemma rdiv_None (v : option R) : Num.rdiv v None = None.
Proof. now destruct v. Qed.

(** With sigma zero the centre entry is NaN, so is the sum, and so is every
    entry of the normalised kernel. *)
Lemma zero_sigma_kernel (kernelSize : option Z) (f : GaussianFilter.t) (i : Z) :
  GaussianFilter.constructor 0 kernelSize = inr f ->
  1 <= GaussianFilter.kernelSize f /\ GaussianFilter.kernelAt f i = None.
Proof.
  intros Hc.
  destruct (constructor_shape 0 kernelSize f Hc) as [k [Ho [Hk [_ [Ek [Er Ekern]]]]]].
  split; [lia|].
  rewrite fold_radd_None in Ekern.
  - unfold GaussianFilter.kernelAt. destruct (i <? 0); auto.
    rewrite Ekern, !nth_error_map.
    destruct (nth_error (Zrange 0 (k - 1)) (Z.to_nat i)); simpl; auto.
    apply rdiv_None.
  - apply in_map_iff. exists (k / 2). split.
    + unfold GaussianFilter.gaussian.
      destruct (Req_dec_T (2 * 0 * 0) 0) as [_|Hne]; [|exfalso; apply Hne; ring].
      now rewrite Z.sub_diag.
    + apply Zrange_In. pose proof (Z.div_pos k 2).
      assert (k / 2 < k) by (apply Z.div_lt; lia). lia.
Qed.

Lemma weightedSum_NaN (K : Z -> option R) (g : Z -> option Z) (l : list Z) :
  (forall i, K i = None) -> l <> [] -> weightedSum K g l = None.
Proof.
  intros HK Hne. unfold weightedSum.
  assert (Hstep : forall s i, Num.radd s (Num.rmul (Num.ofZ (g i)) (K i)) = None).
  { intros s i. rewrite HK. destruct (Num.ofZ (g i)), s; reflexivity. }
  destruct l as [|i l]; [congruence|]. cbn [fold_left]. rewrite Hstep.
  clear Hne. induction l as [|j l IH]; cbn [fold_left]; auto.
Qed.

Lemma pass_color_NaN conv data w h x y c :
  Z.of_nat (length data) = w * h * 4 -> in_image x y w h = true ->
  chan c (conv data x y w h) = None ->
  TypedArray.get (GaussianFilter.convolutionPass conv data w h)
                 ((y * w + x) * 4 + offset c) = Some 0.
Proof.
  intros Hl Hin Hc. apply in_image_spec in Hin. destruct Hin as [Hx Hy].
  pose proof (offset_range c) as Ho.
  assert (Hj := pixel_offset_in_raster data w h x y (offset c) Hl Hx Hy ltac:(lia)).
  rewrite convolutionPass_get by lia.
  rewrite pixelValue_chan, Hc. reflexivity.
Qed.

(** X16.  A Gaussian filter of sigma zero is constructed without an error
    (with the default size 1 or with an odd size that is not negative), but
    its kernel holds only NaN; applied to a raster it stores 0 in the R, G
    and B channels of every pixel. *)
Theorem gaussian_zero_sigma_blackens
    (kernelSize : option Z) (f : GaussianFilter.t) (img : ImageElement) (data : list Z) :
  GaussianFilter.constructor 0 kernelSize = inr f ->
  pixels img = Some data ->
  is_raster data (naturalWidth img) (naturalHeight img) = true ->
  (forall i : Z, GaussianFilter.kernelAt f i = None) /\
  exists out : list Z,
    GaussianFilter.applyFilter f img =
      Resolve {| width := naturalWidth img; height := naturalHeight img;
                 content := Raster out |} /\
    forall (x y : Z) (c : Channel),
      in_image x y (naturalWidth img) (naturalHeight img) = true ->
      TypedArray.get out ((y * naturalWidth img + x) * 4 + offset c) = Some 0.
Proof.
  intros Hc Hp Hr.
  assert (HK : forall i, GaussianFilter.kernelAt f i = None)
    by (intros i; apply (zero_sigma_kernel kernelSize f i Hc)).
  destruct (zero_sigma_kernel kernelSize f 0 Hc) as [Hk _].
  split; [exact HK|].
  set (w := naturalWidth img) in *. set (h := naturalHeight img) in *.
  eexists. split; [apply (gaussian_raster f img data Hp)|].
  fold w h. intros x y c Hin.
  pose proof Hin as Hin'. apply in_image_spec in Hin'. destruct Hin' as [Hx Hy].
  pose proof Hr as Hr'. apply is_raster_spec in Hr'. destruct Hr' as [Hl Hb].
  pose proof (offset_range c) as Hoff.
  assert (Hj := pixel_offset_in_raster data w h x y (offset c) Hl Hx Hy ltac:(lia)).
  assert (Hne : Zrange 0 (GaussianFilter.kernelSize f - 1) <> []).
  { intros E. apply (f_equal (@length Z)) in E. rewrite Zrange_length in E.
    simpl in E. lia. }
  rewrite copy_get by lia.
  unfold GaussianFilter.applyVerticalConvolution.
  rewrite pass_color_NaN; auto.
  - unfold GaussianFilter.applyHorizontalConvolution.
    rewrite convolutionPass_length. exact Hl.
  - rewrite convolveVertical_chan, weightedSum_NaN; auto.
Qed.

(** ** Checks for concrete rasters *)

Lemma inRangeb_spec (lo hi : Z) (o : option Z) :
  inRangeb lo hi o = true -> inRange lo hi o.
Proof.
  destruct o as [v|]; simpl; [|discriminate].
  rewrite andb_true_iff. intros [H1 H2]. exists v. split; auto. lia.
Qed.

Lemma samples_within_check (lo hi : Z) (l : list (option Z)) :
  forallb (inRangeb lo hi) l = true -> samples_within lo hi l.
Proof.
  rewrite forallb_forall. intros H o Ho. apply inRangeb_spec. auto.
Qed.

Lemma channel_within_check (data : list Z) (w h : Z) (c : Channel) (lo hi : Z) :
  channel_withinb data w h c lo hi = true -> channel_within data w h c lo hi.
Proof.
  unfold channel_withinb. rewrite forallb_forall. intros H x y Hin.
  apply in_image_spec in Hin. apply inRangeb_spec.
  assert (Hy : In y (Zrange 0 (h - 1))) by (apply Zrange_In; lia).
  specialize (H y Hy). rewrite forallb_forall in H.
  apply H. apply Zrange_In. lia.
Qed.

Lemma uniform_channel_check (data : list Z) (w h : Z) (c : Channel) (v : Z) :
  channel_withinb data w h c v v = true -> uniform_channel data w h c v.
Proof.
  intros H x y Hin. destruct (channel_within_check _ _ _ _ _ _ H x y Hin) as [u [E Hu]].
  rewrite E. f_equal. lia.
Qed.

(** * The theorems at concrete inputs *)

Lemma alpha_and_size_preserved_witness :
  exists out : list Z,
    applyFilter (MedianF (kernelOf 3)) cornerElement =
      Resolve {| width := 3; height := 3; content := Raster out |} /\
    length out = length (cornerImage 0 0) /\
    forall x y : Z,
      in_image x y 3 3 = true ->
      TypedArray.get out ((y * 3 + x) * 4 + 3)
      = TypedArray.get (cornerImage 0 0) ((y * 3 + x) * 4 + 3).
Proof.
  apply (alpha_and_size_preserved (MedianF (kernelOf 3)) cornerElement (cornerImage 0 0));
    reflexivity.
Defined.

Lemma even_size_fails_at_construction_witness :
  (Z.even 4 = true ->
     construct (Gaussian 2 (Some 4)) = inl ValidationError /\
     forall img : ImageElement, run (Gaussian 2 (Some 4)) img = inl ValidationError) /\
  (In 4 [3; 5; 7; 9] -> exists f : Filter, construct (Gaussian 2 (Some 4)) = inr f).
Proof.
  apply (even_size_fails_at_construction (Gaussian 2 (Some 4)) 4). reflexivity.
Defined.

Lemma unreadable_pixels_fallback_or_reject_witness :
  applyFilter (MaxF (kernelOf 3)) taintedElement = Reject SecurityError.
Proof.
  apply (unreadable_pixels_fallback_or_reject (MaxF (kernelOf 3)) taintedElement).
  reflexivity.
Defined.


Lemma boundary_policy_reflects_witness :
  0 <= reflect (-1) 3 <= 3 - 1 /\
  (0 <= -1 < 3 -> reflect (-1) 3 = -1) /\
  (-1 < 0 -> - -1 < 3 -> reflect (-1) 3 = Z.abs (-1)) /\
  (3 <= -1 <= 2 * 3 - 2 -> reflect (-1) 3 = 3 - 1 - (-1 - 3 + 1)).
Proof.
  destruct boundary_policy_reflects as [_ [H _]].
  apply (H (-1) 3). lia.
Defined.

Lemma mean_size_1_identity_witness :
  exists this : Kernel,
    MeanFilter.constructor 1 = inr this /\
    exists out : list Z,
      MeanFilter.applyFilter this cornerElement =
        Resolve {| width := 3; height := 3; content := Raster out |} /\
      forall (x y : Z) (c : Channel),
        in_image x y 3 3 = true ->
        TypedArray.get out ((y * 3 + x) * 4 + offset c)
        = TypedArray.get (cornerImage 0 0) ((y * 3 + x) * 4 + offset c).
Proof.
  destruct mean_size_1_identity as [this [Hc [_ H]]].
  exists this. split; [exact Hc|].
  apply (H cornerElement (cornerImage 0 0)); reflexivity.
Defined.

Lemma aggregator_outputs_in_byte_range_witness :
  is_color (chan Red (MeanFilter.calculateMeanValues (kernelOf 3) (cornerImage 0 0) 0 0 3 3)) /\
  is_color (chan Red (HarmonicMeanFilter.calculateHarmonicMean (kernelOf 3) (cornerImage 0 0) 0 0 3 3)) /\
  is_color (chan Red (GeometricMeanFilter.calculateGeometricMean (kernelOf 3) (cornerImage 0 0) 0 0 3 3)).
Proof.
  destruct (aggregator_outputs_in_byte_range 3 (cornerImage 0 0) 3 3 0 0 Red)
    as [[_ H1] [_ [_ [_ [_ [[_ H6] [_ H7]]]]]]]; try reflexivity; [lia|].
  exact (conj H1 (conj H7 H6)).
Defined.

Lemma contraharmonic_degenerate_cases_witness :
  (exists (this0 : ContraharmonicMeanFilter.t) (m ch : Z),
     ContraharmonicMeanFilter.constructor 3 0 = inr this0 /\
     chan Red (MeanFilter.calculateMeanValues (kernelOf 3) (cornerImage 0 0) 0 0 3 3) = Some m /\
     chan Red (ContraharmonicMeanFilter.calculateContraharmonicMean this0
                 (cornerImage 0 0) 0 0 3 3) = Some ch /\
     Z.abs (ch - m) <= 1) /\
  (exists (this1 : ContraharmonicMeanFilter.t) (hm ch : Z),
     ContraharmonicMeanFilter.constructor 3 (-1) = inr this1 /\
     chan Red (HarmonicMeanFilter.calculateHarmonicMean (kernelOf 3) (cornerImage 0 0) 0 0 3 3)
       = Some hm /\
     chan Red (ContraharmonicMeanFilter.calculateContraharmonicMean this1
                 (cornerImage 0 0) 0 0 3 3) = Some ch /\
     Z.abs (ch - hm) <= 1).
Proof.
  apply (contraharmonic_degenerate_cases 3 (cornerImage 0 0) 3 3 0 0 Red);
    try reflexivity. lia.
Defined.

(** ** The further properties at concrete inputs *)

Lemma aggregators_within_sample_range_witness :
  inRange 0 200 (chan Red (MeanFilter.calculateMeanValues (kernelOf 3)
                             (cornerImage 0 0) 0 0 3 3)) /\
  inRange 0 200 (chan Red (GeometricMeanFilter.calculateGeometricMean (kernelOf 3)
                             (cornerImage 0 0) 0 0 3 3)) /\
  inRange 0 200 (chan Red (MedianFilter.calculateMedianValues (kernelOf 3)
                             (cornerImage 0 0) 0 0 3 3)).
Proof.
  destruct (aggregators_within_sample_range 3 (cornerImage 0 0) 3 3 0 0 Red 0 200)
    as [H1 [_ [_ [_ [H5 [_ H7]]]]]]; try reflexivity; try lia.
  - apply samples_within_check. reflexivity.
  - split; [exact H1|]. split; [exact H5|]. apply H7. lia.
Defined.

Lemma means_between_min_and_max_witness :
  exists lo hi : Z,
    chan Red (MinFilter.calculateMinValues (kernelOf 3) (cornerImage 0 0) 0 0 3 3)
      = Some lo /\
    chan Red (MaxFilter.calculateMaxValues (kernelOf 3) (cornerImage 0 0) 0 0 3 3)
      = Some hi /\
    inRange lo hi (chan Red (HarmonicMeanFilter.calculateHarmonicMean (kernelOf 3)
                               (cornerImage 0 0) 0 0 3 3)).
Proof.
  destruct (means_between_min_and_max 3 (cornerImage 0 0) 3 3 0 0 Red)
    as [lo [hi [H1 [H2 [_ [_ [_ [_ [_ [_ [H9 _]]]]]]]]]]]; try reflexivity; try lia.
  exists lo, hi. split; [exact H1|]. split; [exact H2|exact H9].
Defined.

Lemma uniform_channel_unchanged_witness :
  exists out : list Z,
    applyFilter (MedianF (kernelOf 3)) tintedElement =
      Resolve {| width := 3; height := 3; content := Raster out |} /\
    uniform_channel out 3 3 Red 200.
Proof.
  apply (uniform_channel_unchanged 3 (MedianF (kernelOf 3)) tintedElement tintedImage
           Red 200); try reflexivity; try lia.
  - do 4 right. left. reflexivity.
  - apply uniform_channel_check. reflexivity.
Defined.

Lemma size_1_identity_witness :
  exists out : list Z,
    applyFilter (MinF (kernelOf 1)) cornerElement =
      Resolve {| width := 3; height := 3; content := Raster out |} /\
    forall (x y : Z) (c : Channel),
      in_image x y 3 3 = true ->
      TypedArray.get out ((y * 3 + x) * 4 + offset c)
      = TypedArray.get (cornerImage 0 0) ((y * 3 + x) * 4 + offset c).
Proof.
  apply (size_1_identity (MinF (kernelOf 1)) cornerElement (cornerImage 0 0));
    try reflexivity.
  right. left. reflexivity.
Defined.

Lemma min_le_pixel_le_max_witness :
  exists lo p hi : Z,
    chan Red (MinFilter.calculateMinValues (kernelOf 3) (cornerImage 0 0) 1 1 3 3)
      = Some lo /\
    TypedArray.get (cornerImage 0 0) ((1 * 3 + 1) * 4 + offset Red) = Some p /\
    chan Red (MaxFilter.calculateMaxValues (kernelOf 3) (cornerImage 0 0) 1 1 3 3)
      = Some hi /\
    lo <= p <= hi.
Proof.
  apply (min_le_pixel_le_max 3 (cornerImage 0 0) 3 3 1 1 Red); try reflexivity. lia.
Defined.

Lemma median_returns_majority_witness :
  chan Red (MedianFilter.calculateMedianValues (kernelOf 3) (cornerImage 0 0) 1 1 3 3)
  = Some 200.
Proof.
  apply (median_returns_majority 3 (cornerImage 0 0) 3 3 1 1 Red 200);
    try reflexivity; lia.
Defined.



Lemma negative_size_constant_output_witness :
  (MinFilter.constructor (-3) = inr (kernelOf (-3)) /\
   chan Red (MinFilter.calculateMinValues (kernelOf (-3)) (cornerImage 0 0) 0 0 3 3)
     = Some 255) /\
  (MidpointFilter.constructor (-3) = inr (kernelOf (-3)) /\
   chan Red (MidpointFilter.calculateMidpointValues (kernelOf (-3))
               (cornerImage 0 0) 0 0 3 3) = Some 128).
Proof.
  destruct (negative_size_constant_output (-3) 1 (cornerImage 0 0) 3 3 0 0 Red)
    as [_ [_ [_ [_ [_ [H6 [_ [H8 _]]]]]]]]; [reflexivity|lia|].
  split; [exact H6|exact H8].
Defined.

Lemma gaussian_negative_size_range_error_witness :
  GaussianFilter.constructor 1 (Some (-3)) = inl RangeError.
Proof.
  apply (gaussian_negative_size_range_error 1 (Some (-3))).
  split; [reflexivity|lia].
Defined.

Lemma gaussian_constructor_invariants_witness :
  exists f : GaussianFilter.t,
    GaussianFilter.constructor 2 (Some 3) = inr f /\
    Z.odd (GaussianFilter.kernelSize f) = true /\
    1 <= GaussianFilter.kernelSize f /\
    2 * GaussianFilter.radius f + 1 = GaussianFilter.kernelSize f /\
    GaussianFilter.sigma f = 2%R /\
    Z.of_nat (length (GaussianFilter.kernel f)) = GaussianFilter.kernelSize f /\
    GaussianFilter.kernelSize f = 3.
Proof.
  eexists. split; [reflexivity|].
  apply (gaussian_constructor_invariants 2 (Some 3)). reflexivity.
Defined.





Lemma gaussian_zero_sigma_blackens_witness :
  exists f : GaussianFilter.t,
    GaussianFilter.constructor 0 (Some 3) = inr f /\
    (forall i : Z, GaussianFilter.kernelAt f i = None) /\
    exists out : list Z,
      GaussianFilter.applyFilter f cornerElement =
        Resolve {| width := 3; height := 3; content := Raster out |} /\
      forall (x y : Z) (c : Channel),
        in_image x y 3 3 = true ->
        TypedArray.get out ((y * 3 + x) * 4 + offset c) = Some 0.
Proof.
  eexists. split; [reflexivity|].
  apply (gaussian_zero_sigma_blackens (Some 3) _ cornerElement (cornerImage 0 0));
    reflexivity.
Defined.
